(** * lam-coins: deposit-address validators

    A shallow embedding of [src/plugins/validators/index.ts] (the six address
    validators and [isBech32Address]) and of the plugin of
    [src/plugins/blackpay.ts] ([validate] and the methods around it), with the
    properties the specification states about them and further properties
    read off the code.

    Conventions of the embedding.
    - A JavaScript call either returns a value or throws: [outcome].
      [try { ... } catch (e) { ... }] is [try_catch].  [console.log] only
      writes diagnostics and is left out.
    - A JavaScript string is a [string] of 8-bit characters.  The embedding is
      exact on ASCII candidates; a character above 127 is kept as it is by
      [toLowerCase] and [toUpperCase], and is no white space for [parseInt].
      No property below rests on how the two map a character: a property
      about case states what it needs of the candidate as a hypothesis, and a
      length that [decode] fixes is stated of the lower-case form it reads.
    - A JavaScript number that the code uses as an integer is a [Z]; the
      32-bit wrap-around of [<<] is written out ([to_int32]).  An optional
      argument left out is [None].
    - A byte buffer is a [list Z] of values in 0..255.

    Plan of the file.
    - The [bech32] package, whose behaviour the properties depend on (its
      default length ceiling, its [fromWords] that throws), is modelled in
      full.
    - The validators are parameterised by the other decoders and by the hash
      they call, and their properties hold for any of them.
    - Models of those decoders and hashes follow; the examples run the
      validators on real addresses with them.
    - [url.parse] of Node.js is a parameter of the plugin's methods. *)

From Stdlib Require Import ZArith List String Ascii Bool Lia.
Import ListNotations.

Local Open Scope string_scope.
Local Open Scope Z_scope.

(** ** Calls that may throw *)

Inductive outcome (A : Type) : Type :=
| Returns (a : A)
| Throws (message : string).

Arguments Returns {A} a.
Arguments Throws {A} message.

Definition bind {A B : Type} (m : outcome A) (k : A -> outcome B) : outcome B :=
  match m with
  | Returns a => k a
  | Throws e => Throws e
  end.

Notation "x <- m ;; k" := (bind m (fun x => k))
  (at level 61, m at next level, right associativity).

(** [try { body } catch (error) { handler }] *)
Definition try_catch {A : Type} (body : outcome A) (handler : string -> outcome A)
  : outcome A :=
  match body with
  | Returns a => Returns a
  | Throws e => handler e
  end.

(** ** JavaScript strings, numbers and buffers *)

Module Js.

Definition charCode (c : ascii) : Z := Z.of_N (N_of_ascii c).

Definition length (s : string) : Z := Z.of_nat (String.length s).

Definition lower_char (c : ascii) : ascii :=
  let n := charCode c in
  if (65 <=? n) && (n <=? 90) then ascii_of_N (Z.to_N (n + 32)) else c.

Definition upper_char (c : ascii) : ascii :=
  let n := charCode c in
  if (97 <=? n) && (n <=? 122) then ascii_of_N (Z.to_N (n - 32)) else c.

Fixpoint map_chars (f : ascii -> ascii) (s : string) : string :=
  match s with
  | EmptyString => EmptyString
  | String c s' => String (f c) (map_chars f s')
  end.

Definition toLowerCase (s : string) : string := map_chars lower_char s.
Definition toUpperCase (s : string) : string := map_chars upper_char s.

(** The index of the first [c] in [s], counted from [i]; [None] when [c]
    does not occur. *)
Fixpoint index_from (c : ascii) (s : string) (i : Z) : option Z :=
  match s with
  | EmptyString => None
  | String d s' => if Ascii.eqb d c then Some i else index_from c s' (i + 1)
  end.

Fixpoint lastIndexOf_from (c : ascii) (s : string) (i last : Z) : Z :=
  match s with
  | EmptyString => last
  | String d s' => lastIndexOf_from c s' (i + 1) (if Ascii.eqb d c then i else last)
  end.

(** [s.lastIndexOf(c)] for a one-character [c]: -1 when [c] does not occur. *)
Definition lastIndexOf (s : string) (c : ascii) : Z := lastIndexOf_from c s 0 (-1).

(** [s.slice(b, e)]: a negative index counts from the end. *)
Definition slice (s : string) (b e : Z) : string :=
  let len := length s in
  let from := if b <? 0 then Z.max (len + b) 0 else Z.min b len in
  let to := if e <? 0 then Z.max (len + e) 0 else Z.min e len in
  String.substring (Z.to_nat from) (Z.to_nat (Z.max (to - from) 0)) s.

(** [s.slice(b)] *)
Definition slice_from (s : string) (b : Z) : string := slice s b (length s).

(** [s.substring(0, n)] and [s.substr(0, n)] for [n >= 0]. *)
Definition substring0 (s : string) (n : Z) : string :=
  String.substring 0 (Z.to_nat n) s.

(** [s.startsWith(p)], and lodash's [_.startsWith(p, s)] of [lodash/fp]. *)
Definition startsWith (s p : string) : bool := String.prefix p s.

(** The value of a 32-bit signed integer operation. *)
Definition to_int32 (z : Z) : Z := (z + 2 ^ 31) mod 2 ^ 32 - 2 ^ 31.

(** [a << n], [a >> n], [a | b], [a & b] and [a ^ b] on 32-bit integers. *)
Definition shl (a n : Z) : Z := to_int32 (Z.shiftl a n).
Definition shr (a n : Z) : Z := Z.shiftr a n.
Definition or (a b : Z) : Z := Z.lor a b.
Definition and (a b : Z) : Z := Z.land a b.
Definition xor (a b : Z) : Z := Z.lxor a b.

Definition hexdigit (n : Z) : ascii :=
  nth (Z.to_nat n) (list_ascii_of_string "0123456789abcdef") "0"%char.

(** [Buffer.from(bytes).toString('hex')]; [Buffer.from] keeps the low 8 bits
    of each element. *)
Fixpoint toHex (bytes : list Z) : string :=
  match bytes with
  | [] => EmptyString
  | b :: rest =>
      let b := Z.land b 255 in
      String (hexdigit (b / 16)) (String (hexdigit (b mod 16)) (toHex rest))
  end.

(** [Buffer.from(s)]: the bytes of the string (UTF-8; one byte per ASCII
    character). *)
Definition bytes_of_string (s : string) : list Z :=
  map charCode (list_ascii_of_string s).

End Js.

(** ** The [bech32] package (version 2.0.0), as [index.ts] uses it

    [{ bech32, bech32m } = require('bech32')]: the two codecs share their code
    and differ in the checksum constant. *)

Module Bech32.

Inductive encoding : Type := bech32 | bech32m.

Definition ENCODING_CONST (enc : encoding) : Z :=
  match enc with
  | bech32 => 1
  | bech32m => 0x2bc830a3
  end.

Definition ALPHABET : string := "qpzry9x8gf2tvdw0s3jn54khce6mua7l".

(** [ALPHABET_MAP[c]]: [None] is [undefined]. *)
Definition ALPHABET_MAP (c : ascii) : option Z := Js.index_from c ALPHABET 0.

Definition polymodStep (pre : Z) : Z :=
  let b := Js.shr pre 25 in
  Js.xor (Js.xor (Js.xor (Js.xor (Js.xor
    (Js.shl (Js.and pre 0x1ffffff) 5)
    (Js.and (- Js.and (Js.shr b 0) 1) 0x3b6a57b2))
    (Js.and (- Js.and (Js.shr b 1) 1) 0x26508e6d))
    (Js.and (- Js.and (Js.shr b 2) 1) 0x1ea119fa))
    (Js.and (- Js.and (Js.shr b 3) 1) 0x3d4233dd))
    (Js.and (- Js.and (Js.shr b 4) 1) 0x2a1462b3).

(** First loop of [prefixChk]: [None] when a character is outside 33..126. *)
Fixpoint prefixChk_high (cs : list ascii) (chk : Z) : option Z :=
  match cs with
  | [] => Some chk
  | c :: cs' =>
      let c := Js.charCode c in
      if (c <? 33) || (c >? 126) then None
      else prefixChk_high cs' (Js.xor (polymodStep chk) (Js.shr c 5))
  end.

(** Second loop of [prefixChk]. *)
Fixpoint prefixChk_low (cs : list ascii) (chk : Z) : Z :=
  match cs with
  | [] => chk
  | v :: cs' => prefixChk_low cs' (Js.xor (polymodStep chk) (Js.and (Js.charCode v) 0x1f))
  end.

(** [prefixChk(prefix)]: the checksum state, or an error message. *)
Definition prefixChk (prefix : string) : string + Z :=
  let cs := list_ascii_of_string prefix in
  match prefixChk_high cs 1 with
  | None => inl ("Invalid prefix (" ++ prefix ++ ")")
  | Some chk => inr (prefixChk_low cs (polymodStep chk))
  end.

(** The [while (bits >= outBits)] loop of [convert]; it runs at most [bits]
    times. *)
Fixpoint convert_drain (fuel : nat) (value bits outBits maxV : Z) (result : list Z)
  : Z * list Z :=
  match fuel with
  | O => (bits, result)
  | S fuel' =>
      if bits >=? outBits then
        let bits := bits - outBits in
        convert_drain fuel' value bits outBits maxV
          (result ++ [Js.and (Js.shr value bits) maxV])%list
      else (bits, result)
  end.

(** The [for] loop of [convert]: the state is [(value, bits, result)]. *)
Fixpoint convert_loop (data : list Z) (inBits outBits maxV value bits : Z)
  (result : list Z) : Z * Z * list Z :=
  match data with
  | [] => (value, bits, result)
  | d :: data' =>
      let value := Js.or (Js.shl value inBits) d in
      let bits := bits + inBits in
      let '(bits, result) := convert_drain (Z.to_nat bits) value bits outBits maxV result in
      convert_loop data' inBits outBits maxV value bits result
  end.

(** [convert(data, inBits, outBits, pad)]: the converted array, or an error
    message. *)
Definition convert (data : list Z) (inBits outBits : Z) (pad : bool)
  : string + list Z :=
  let maxV := Js.shl 1 outBits - 1 in
  let '(value, bits, result) := convert_loop data inBits outBits maxV 0 0 [] in
  if pad then
    if bits >? 0 then inr (result ++ [Js.and (Js.shl value (outBits - bits)) maxV])%list
    else inr result
  else if bits >=? inBits then inl "Excess padding"
  else if negb (Js.and (Js.shl value (outBits - bits)) maxV =? 0) then inl "Non-zero padding"
  else inr result.

(** [fromWords(words)]: throws the message of [convert]. *)
Definition fromWords (words : list Z) : outcome (list Z) :=
  match convert words 5 8 false with
  | inr res => Returns res
  | inl msg => Throws msg
  end.

(** [{ prefix, words }] *)
Record Decoded : Type := { prefix : string; words : list Z }.

(** The loop of [__decode] over the characters after the separator: every
    character enters the checksum, and all but the last six are words. *)
Fixpoint decode_words (cs : list ascii) (chk : Z) (words : list Z)
  : string + (Z * list Z) :=
  match cs with
  | [] => inr (chk, words)
  | c :: cs' =>
      match ALPHABET_MAP c with
      | None => inl ("Unknown character " ++ String c EmptyString)
      | Some v =>
          let chk := Js.xor (polymodStep chk) v in
          if (6 >=? Z.of_nat (List.length cs)) then decode_words cs' chk words
          else decode_words cs' chk (words ++ [v])%list
      end
  end.

(** [__decode(str, LIMIT)]: [LIMIT] is [None] when the argument is left out. *)
Definition decode_ (enc : encoding) (str : string) (LIMIT : option Z)
  : string + Decoded :=
  let LIMIT := match LIMIT with
               | Some l => if l =? 0 then 90 else l
               | None => 90
               end in
  if Js.length str <? 8 then inl (str ++ " too short")
  else if Js.length str >? LIMIT then inl "Exceeds length limit"
  else
    let lowered := Js.toLowerCase str in
    let uppered := Js.toUpperCase str in
    if negb (String.eqb str lowered) && negb (String.eqb str uppered)
    then inl ("Mixed-case string " ++ str)
    else
      let str := lowered in
      let split := Js.lastIndexOf str "1"%char in
      if split =? -1 then inl ("No separator character for " ++ str)
      else if split =? 0 then inl ("Missing prefix for " ++ str)
      else
        let prefix := Js.slice str 0 split in
        let wordChars := Js.slice_from str (split + 1) in
        if Js.length wordChars <? 6 then inl "Data too short"
        else
          match prefixChk prefix with
          | inl msg => inl msg
          | inr chk =>
              match decode_words (list_ascii_of_string wordChars) chk [] with
              | inl msg => inl msg
              | inr (chk, words) =>
                  if negb (chk =? ENCODING_CONST enc)
                  then inl ("Invalid checksum for " ++ str)
                  else inr {| prefix := prefix; words := words |}
              end
          end.

(** [decode(str, LIMIT)]: throws the message of [__decode]. *)
Definition decode (enc : encoding) (str : string) (LIMIT : option Z)
  : outcome Decoded :=
  match decode_ enc str LIMIT with
  | inr res => Returns res
  | inl msg => Throws msg
  end.

End Bech32.

(** ** Scheme configurations ([opts])

    [opts] is untyped in the source.  A field that the code only compares or
    tests for presence may be absent ([None] is [undefined]): the regtest
    prefixes and every Base58Check prefix table (the configuration of
    [blackpay.ts] has no [regtestPrefix]). *)

Module Base58Opts.
Record t : Type := {
  bufferLength : Z;
  mainNetPrefix : option (list (list Z));
  testNetPrefix : option (list (list Z));
  regtestPrefix : option (list (list Z))
}.
End Base58Opts.

Module Bech32Opts.
Record t : Type := {
  mainNetPrefix : string;
  testNetPrefix : string;
  regtestPrefix : option string
}.
End Bech32Opts.

Module XmrOpts.
Record t : Type := {
  mainNetPublicAddrPrefix : string;
  mainNetIntegratedAddrPrefix : string;
  mainNetSubAddrPrefix : string;
  testNetPublicAddrPrefix : string;
  testNetIntegratedAddrPrefix : string;
  testNetSubAddrPrefix : string
}.
End XmrOpts.

(** ** [parseInt(s, 16)] and typed-array stores, for [hexToBin] *)

Module Hex.

Definition isWhiteSpace (c : ascii) : bool :=
  let n := Js.charCode c in
  ((9 <=? n) && (n <=? 13)) || (n =? 32).

Fixpoint trimStart (s : string) : string :=
  match s with
  | String c s' => if isWhiteSpace c then trimStart s' else s
  | EmptyString => EmptyString
  end.

(** The value of a hexadecimal digit, either case. *)
Definition digit (c : ascii) : option Z :=
  let n := Js.charCode c in
  if (48 <=? n) && (n <=? 57) then Some (n - 48)
  else if (97 <=? n) && (n <=? 102) then Some (n - 87)
  else if (65 <=? n) && (n <=? 70) then Some (n - 55)
  else None.

(** The longest run of digits at the start of [s]: [None] when it is empty,
    [acc] holds the digits read so far. *)
Fixpoint digits (s : string) (acc : option Z) : option Z :=
  match s with
  | EmptyString => acc
  | String c s' =>
      match digit c with
      | None => acc
      | Some d => digits s' (Some (16 * match acc with Some a => a | None => 0 end + d))
      end
  end.

(** [parseInt(s, 16)]: [None] is [NaN]. *)
Definition parseInt16 (s : string) : option Z :=
  let s := trimStart s in
  let '(sign, s) :=
    match s with
    | String "-" s' => (-1, s')
    | String "+" s' => (1, s')
    | _ => (1, s)
    end in
  let s :=
    match s with
    | String "0" (String "x" s') => s'
    | String "0" (String "X" s') => s'
    | _ => s
    end in
  match digits s None with
  | None => None
  | Some v => Some (sign * v)
  end.

(** [u8[i] = v]: what a [Uint8Array] keeps of a number. *)
Definition toUint8 (v : option Z) : Z :=
  match v with
  | None => 0
  | Some v => v mod 256
  end.

End Hex.

(** ** [src/plugins/validators/index.ts] *)

Section Validators.

(** The decoders and the hash the validators call and this file does not
    define: [bs58check.decode], [cnBase58.decode] (it returns a string of
    hexadecimal digits), [keccak256] and [f4Unjumble]. *)
Variable bs58check_decode : string -> outcome (list Z).
Variable cnBase58_decode : string -> outcome string.
Variable keccak256 : list Z -> list Z.
Variable reverseF4Jumble : list Z -> outcome (list Z).

(** [a !== b] on array elements; [None] is [undefined]. *)
Definition strict_neq (a b : option Z) : bool :=
  match a, b with
  | Some x, Some y => negb (x =? y)
  | None, None => false
  | _, _ => true
  end.

(** The inner loop of [validatePrefix] from [byteIndex] on, [n] elements of
    [currentPrefix] left: [true] is its [return true], [false] its [break] or
    its end. *)
Fixpoint validatePrefix_bytes (currentPrefix buf : list Z) (n byteIndex : nat) : bool :=
  match n with
  | O => false
  | S n' =>
      if strict_neq (nth_error currentPrefix byteIndex) (nth_error buf byteIndex)
      then false
      else if Nat.eqb byteIndex (List.length currentPrefix - 1) then true
      else validatePrefix_bytes currentPrefix buf n' (S byteIndex)
  end.

Fixpoint validatePrefix (prefix : list (list Z)) (buf : list Z) : bool :=
  match prefix with
  | [] => false
  | currentPrefix :: rest =>
      if validatePrefix_bytes currentPrefix buf (List.length currentPrefix) 0 then true
      else validatePrefix rest buf
  end.

Definition base58Validator (network address : string) (opts : Base58Opts.t)
  : outcome bool :=
  try_catch
    (buf <- bs58check_decode address ;;
     if negb (Z.of_nat (List.length buf) =? Base58Opts.bufferLength opts)
     then Returns false
     else
       let prefix :=
         if String.eqb network "main" then Base58Opts.mainNetPrefix opts
         else if String.eqb network "test" then Base58Opts.testNetPrefix opts
         else if String.eqb network "regtest" then Base58Opts.regtestPrefix opts
         else None in
       match prefix with
       | Some prefix => Returns (validatePrefix prefix buf)
       | None => Returns false
       end)
    (fun error => Returns false).

(** [decoded.prefix === p] for a field [p] that may be absent. *)
Definition prefix_is (decoded : Bech32.Decoded) (p : option string) : bool :=
  match p with
  | Some p => String.eqb (Bech32.prefix decoded) p
  | None => false
  end.

(** The three closing tests of [bech32mValidator] and [bech32Validator]. *)
Definition network_prefix_matches (network : string) (decoded : Bech32.Decoded)
  (opts : Bech32Opts.t) : bool :=
  if String.eqb network "main"
     && prefix_is decoded (Some (Bech32Opts.mainNetPrefix opts)) then true
  else if String.eqb network "test"
     && prefix_is decoded (Some (Bech32Opts.testNetPrefix opts)) then true
  else if String.eqb network "regtest"
     && prefix_is decoded (Bech32Opts.regtestPrefix opts) then true
  else false.

Definition bech32mValidator (network address : string) (opts : Bech32Opts.t)
  : outcome bool :=
  match Bech32.decode Bech32.bech32m address None with
  | Throws error => Returns false
  | Returns decoded =>
      let witnessVersion := nth_error (Bech32.words decoded) 0 in
      if match witnessVersion with
         | Some v => (v <? 1) || (v >? 16)
         | None => false
         end
      then Returns false
      else
        data <- Bech32.fromWords (skipn 1 (Bech32.words decoded)) ;;
        if (Z.of_nat (List.length data) <? 2) || (Z.of_nat (List.length data) >? 40)
        then Returns false
        else Returns (network_prefix_matches network decoded opts)
  end.

(** [if (limit)]: a number is truthy unless it is 0. *)
Definition truthy (limit : option Z) : bool :=
  match limit with
  | Some l => negb (l =? 0)
  | None => false
  end.

Definition bech32Validator (network address : string) (opts : Bech32Opts.t)
  (limit : option Z) : outcome bool :=
  match Bech32.decode Bech32.bech32 address limit with
  | Throws error => Returns false
  | Returns decoded =>
      if truthy limit then
        if String.eqb network "main"
           && Js.startsWith (Js.toLowerCase address) (Bech32Opts.mainNetPrefix opts)
        then Returns true
        else if String.eqb network "test"
           && Js.startsWith (Js.toLowerCase address) (Bech32Opts.testNetPrefix opts)
        then Returns true
        else Returns false
      else
        let witnessVersion := nth_error (Bech32.words decoded) 0 in
        if strict_neq witnessVersion (Some 0) then Returns false
        else
          data <- Bech32.fromWords (skipn 1 (Bech32.words decoded)) ;;
          if negb (Z.of_nat (List.length data) =? 20)
             && negb (Z.of_nat (List.length data) =? 32)
          then Returns false
          else Returns (network_prefix_matches network decoded opts)
  end.

(** [a || b] on calls that return booleans: [b] runs only when [a] returned
    [false]. *)
Definition isBech32Address (address : string) (opts : Bech32Opts.t)
  (lengthLimit : option Z) : outcome bool :=
  a <- bech32Validator "main" address opts lengthLimit ;;
  if a then Returns true else bech32Validator "test" address opts lengthLimit.

Definition zecBech32Validator (network address : string) (opts : Bech32Opts.t)
  : outcome bool :=
  match Bech32.decode Bech32.bech32 address None with
  | Throws error => Returns false
  | Returns decoded =>
      data <- Bech32.fromWords (Bech32.words decoded) ;;
      if negb (Z.of_nat (List.length data) =? 43) then Returns false
      else if String.eqb network "main"
           && String.eqb (Bech32.prefix decoded) (Bech32Opts.mainNetPrefix opts)
      then Returns true
      else if String.eqb network "test"
           && String.eqb (Bech32.prefix decoded) (Bech32Opts.testNetPrefix opts)
      then Returns true
      else Returns false
  end.

Definition paddingMask : string := "00000000000000000000000000000000".

Definition confirmPadding (unjumbled : list Z) (humanReadiblePadding : string) : bool :=
  let humanReadibleBuffer := Js.toHex (Js.bytes_of_string humanReadiblePadding) in
  let lastBytes := Js.slice_from (Js.toHex unjumbled) (-32) in
  let paddedRes := Js.substring0 (humanReadibleBuffer ++ paddingMask) (Js.length paddingMask) in
  String.eqb lastBytes paddedRes.

Definition zecBech32mValidator (network address : string) (opts : Bech32Opts.t)
  : outcome bool :=
  match Bech32.decode Bech32.bech32m address (Some 512) with
  | Throws error => Returns false
  | Returns decoded =>
      data <- Bech32.fromWords (Bech32.words decoded) ;;
      res <- reverseF4Jumble data ;;
      if String.eqb network "main" && confirmPadding res (Bech32Opts.mainNetPrefix opts)
      then Returns true
      else if String.eqb network "test" && confirmPadding res (Bech32Opts.testNetPrefix opts)
      then Returns true
      else Returns false
  end.

(** The loop of [hexToBin]: [n] bytes left, the next one read at [2 * i]. *)
Fixpoint hexToBin_loop (hex : string) (n : nat) (i : Z) : list Z :=
  match n with
  | O => []
  | S n' =>
      Hex.toUint8 (Hex.parseInt16 (Js.slice hex (i * 2) (i * 2 + 2)))
        :: hexToBin_loop hex n' (i + 1)
  end.

(** [hexToBin(hex)]: [None] is [null]. *)
Definition hexToBin (hex : string) : option (list Z) :=
  if negb (Js.length hex mod 2 =? 0) then None
  else Some (hexToBin_loop hex (Z.to_nat (Js.length hex / 2)) 0).

(** [keccak256Checksum(payload)]: [None] is [null]. *)
Definition keccak256Checksum (payload : option (list Z)) : option string :=
  match payload with
  | Some payload => Some (Js.substring0 (Js.toHex (keccak256 payload)) 8)
  | None => None
  end.

(** [addrChecksum === hashChecksum] *)
Definition checksum_is (addrChecksum : string) (hashChecksum : option string) : bool :=
  match hashChecksum with
  | Some h => String.eqb addrChecksum h
  | None => false
  end.

Definition xmrValidator (network address : string) (opts : XmrOpts.t) : outcome bool :=
  try_catch
    (decoded <- cnBase58_decode address ;;
     let addrChecksum := Js.slice_from decoded (-8) in
     let hashChecksum := keccak256Checksum (hexToBin (Js.slice decoded 0 (-8))) in
     let matchesMainNetPrefix :=
       Js.startsWith decoded (XmrOpts.mainNetPublicAddrPrefix opts)
       || Js.startsWith decoded (XmrOpts.mainNetIntegratedAddrPrefix opts)
       || Js.startsWith decoded (XmrOpts.mainNetSubAddrPrefix opts) in
     let matchesTestNetPrefix :=
       Js.startsWith decoded (XmrOpts.testNetPublicAddrPrefix opts)
       || Js.startsWith decoded (XmrOpts.testNetIntegratedAddrPrefix opts)
       || Js.startsWith decoded (XmrOpts.testNetSubAddrPrefix opts) in
     if String.eqb network "main" && matchesMainNetPrefix
        && checksum_is addrChecksum hashChecksum then Returns true
     else if String.eqb network "test" && matchesTestNetPrefix
        && checksum_is addrChecksum hashChecksum then Returns true
     else Returns false)
    (fun err => Returns false).

End Validators.

(** ** Regular expressions, for [RegExp.prototype.test]

    The pattern of [blackpay.ts] is anchored at both ends and uses classes,
    concatenation, [?], [*], [+] and bounded repetition only, so [test]
    decides membership in a regular language.  [Matches] is that language;
    [test] decides it by derivatives. *)

Module Regex.

Inductive regex : Type :=
| Never
| Eps
| Class (p : ascii -> bool)
| Cat (r s : regex)
| Alt (r s : regex)
| Star (r : regex).

Inductive Matches : regex -> list ascii -> Prop :=
| MEps : Matches Eps []
| MClass (p : ascii -> bool) (c : ascii) : p c = true -> Matches (Class p) [c]
| MCat (r s : regex) (u v : list ascii) :
    Matches r u -> Matches s v -> Matches (Cat r s) (u ++ v)
| MAltL (r s : regex) (u : list ascii) : Matches r u -> Matches (Alt r s) u
| MAltR (r s : regex) (u : list ascii) : Matches s u -> Matches (Alt r s) u
| MStarNil (r : regex) : Matches (Star r) []
| MStarCons (r : regex) (u v : list ascii) :
    Matches r u -> Matches (Star r) v -> Matches (Star r) (u ++ v).

(** [r?], [r+] and [r{0,n}] *)
Definition Opt (r : regex) : regex := Alt r Eps.
Definition Plus (r : regex) : regex := Cat r (Star r).
Fixpoint UpTo (n : nat) (r : regex) : regex :=
  match n with
  | O => Eps
  | S n' => Opt (Cat r (UpTo n' r))
  end.

Fixpoint nullable (r : regex) : bool :=
  match r with
  | Never => false
  | Eps => true
  | Class _ => false
  | Cat r s => nullable r && nullable s
  | Alt r s => nullable r || nullable s
  | Star _ => true
  end.

(** [Cat] and [Alt] that drop what cannot match. *)
Definition cat (r s : regex) : regex :=
  match r with
  | Never => Never
  | Eps => s
  | _ => Cat r s
  end.

Definition alt (r s : regex) : regex :=
  match r, s with
  | Never, _ => s
  | _, Never => r
  | _, _ => Alt r s
  end.

(** What is left of [r] after the character [c]. *)
Fixpoint deriv (c : ascii) (r : regex) : regex :=
  match r with
  | Never => Never
  | Eps => Never
  | Class p => if p c then Eps else Never
  | Cat r s =>
      if nullable r then alt (cat (deriv c r) s) (deriv c s)
      else cat (deriv c r) s
  | Alt r s => alt (deriv c r) (deriv c s)
  | Star r => cat (deriv c r) (Star r)
  end.

Fixpoint matchb (r : regex) (w : list ascii) : bool :=
  match w with
  | [] => nullable r
  | c :: w' => matchb (deriv c r) w'
  end.

(** [/^r$/.test(s)] *)
Definition test (r : regex) (s : string) : bool := matchb r (list_ascii_of_string s).

End Regex.

(** ** [src/plugins/blackpay.ts] *)

Module Blackpay.

Import Regex.

Definition in_range (lo hi : Z) (c : ascii) : bool :=
  (lo <=? Js.charCode c) && (Js.charCode c <=? hi).

(** [[a-zA-Z0-9]] *)
Definition alnum (c : ascii) : bool :=
  in_range 97 122 c || in_range 65 90 c || in_range 48 57 c.

Definition one_of (chars : string) (c : ascii) : bool :=
  existsb (Ascii.eqb c) (list_ascii_of_string chars).

(** [[a-zA-Z0-9.!#$%&'*+/=?^_`{|}~-]] *)
Definition local_char (c : ascii) : bool :=
  alnum c || one_of ".!#$%&'*+/=?^_`{|}~-" c.

(** [[a-zA-Z0-9-]] *)
Definition alnum_hyphen (c : ascii) : bool := alnum c || one_of "-" c.

(** [[a-zA-Z0-9](?:[a-zA-Z0-9-]{0,61}[a-zA-Z0-9])?] *)
Definition label : regex :=
  Cat (Class alnum) (Opt (Cat (UpTo 61 (Class alnum_hyphen)) (Class alnum))).

(** The pattern [re] of [validate], between its [^] and [$]. *)
Definition re : regex :=
  Cat (Plus (Class local_char))
    (Cat (Class (one_of "@"))
      (Cat label (Star (Cat (Class (one_of ".")) label)))).

(** [network] is [string|null|undefined]. *)
Inductive network : Type :=
| Name (tag : string)
| Null
| Undefined.

Definition validate (network : network) (address : string) : bool :=
  Regex.test re address.

(** The [base58Opts] of the plugin: no [regtestPrefix]. *)
Definition base58Opts : Base58Opts.t :=
  {| Base58Opts.bufferLength := 21;
     Base58Opts.mainNetPrefix := Some [[0x41]];
     Base58Opts.testNetPrefix := Some [[0x41]];
     Base58Opts.regtestPrefix := None |}.

(** What [parseUrl] reads of the record [url.parse] returns: [None] is
    [null]. *)
Record UrlRecord : Type := { path : option string; host : option string }.

(** [a || b] on strings that may be [null]: [null] and the empty string are
    falsy. *)
Definition or_else (a b : option string) : option string :=
  match a with
  | Some s => if String.eqb s "" then b else a
  | None => b
  end.

Section Plugin.

(** [url.parse] of Node.js, which this file does not define. *)
Variable url_parse : string -> outcome UrlRecord.

(** The optional arguments of the methods are never read, and are left
    out. *)
Definition depositUrl (addr amount : string) : string := addr.

Definition parseUrl (network uri : string) : outcome string :=
  try_catch
    (rec <- url_parse uri ;;
     match or_else (path rec) (host rec) with
     | None => Throws "Invalid address"
     | Some address =>
         if String.eqb address "" || negb (validate (Name network) address)
         then Throws "Invalid address"
         else Returns address
     end)
    (fun e => Throws "Invalid address").

Definition buildUrl (addr : string) : string := "tron:" ++ addr.

(** [None] is [null]. *)
Definition getAddressType (url network : string) : outcome (option string) :=
  address <- parseUrl network url ;;
  Returns (if validate (Name network) address then Some "Regular" else None).

End Plugin.

End Blackpay.

(** ** The other decoders and hashes [index.ts] imports

    The validators above take them as parameters, and every property below
    is proved for any decoder and hash.  The models of this part run the
    validators on real addresses in the examples.  Each is checked against
    published test vectors below. *)

(** *** SHA-256 (FIPS 180-4), the checksum hash of [bs58check] *)

Module Sha256.

Definition w32 (x : Z) : Z := x mod 2 ^ 32.
Definition add (x y : Z) : Z := w32 (x + y).
Definition rotr (n x : Z) : Z := Z.lor (Z.shiftr x n) (w32 (Z.shiftl x (32 - n))).

Definition is_prime (p : Z) : bool :=
  forallb (fun d => negb (p mod Z.of_nat d =? 0)) (seq 2 (Z.to_nat p - 2)).

(** The first 64 primes. *)
Definition primes : list Z := filter is_prime (map Z.of_nat (seq 2 310)).

(** The integer [k]-th root of [x], built from its top bit down. *)
Fixpoint root_bits (k : Z) (bits : nat) (x r : Z) : Z :=
  match bits with
  | O => r
  | S b =>
      let r' := r + 2 ^ Z.of_nat b in
      if r' ^ k <=? x then root_bits k b x r' else root_bits k b x r
  end.

(** The first 32 bits of the fractional part of the [k]-th root of [p]. *)
Definition root_fraction (k p : Z) : Z :=
  root_bits k 36 (p * 2 ^ (32 * k)) 0 mod 2 ^ 32.

(** The round constants come from the cube roots of the first 64 primes, the
    initial hash value from the square roots of the first 8. *)
Definition K : list Z := Eval vm_compute in map (root_fraction 3) primes.
Definition H0 : list Z := Eval vm_compute in map (root_fraction 2) (firstn 8 primes).

(** Message padding: 0x80, zeros, and the bit length on 8 bytes. *)
Definition pad (msg : list Z) : list Z :=
  let len := Z.of_nat (List.length msg) in
  let zeros := Z.to_nat ((55 - len) mod 64) in
  (msg ++ [0x80] ++ repeat 0 zeros
       ++ map (fun i => Z.land (Z.shiftr (len * 8) (8 * (7 - i))) 255) [0; 1; 2; 3; 4; 5; 6; 7])%list.

Fixpoint words_of (bytes : list Z) (n : nat) : list Z :=
  match n, bytes with
  | S n', a :: b :: c :: d :: rest =>
      (a * 2 ^ 24 + b * 2 ^ 16 + c * 2 ^ 8 + d) :: words_of rest n'
  | _, _ => []
  end.

Definition sigma0 (x : Z) : Z := Z.lxor (Z.lxor (rotr 7 x) (rotr 18 x)) (Z.shiftr x 3).
Definition sigma1 (x : Z) : Z := Z.lxor (Z.lxor (rotr 17 x) (rotr 19 x)) (Z.shiftr x 10).
Definition Sigma0 (x : Z) : Z := Z.lxor (Z.lxor (rotr 2 x) (rotr 13 x)) (rotr 22 x).
Definition Sigma1 (x : Z) : Z := Z.lxor (Z.lxor (rotr 6 x) (rotr 11 x)) (rotr 25 x).
Definition Ch (x y z : Z) : Z := Z.lxor (Z.land x y) (Z.land (Z.lxor x (2 ^ 32 - 1)) z).
Definition Maj (x y z : Z) : Z := Z.lxor (Z.lxor (Z.land x y) (Z.land x z)) (Z.land y z).

(** The message schedule, newest word first. *)
Fixpoint schedule (n : nat) (w : list Z) : list Z :=
  match n with
  | O => w
  | S n' =>
      let x := add (add (sigma1 (nth 1 w 0)) (nth 6 w 0))
                   (add (sigma0 (nth 14 w 0)) (nth 15 w 0)) in
      schedule n' (x :: w)
  end.

Definition round (st : list Z) (kw : Z * Z) : list Z :=
  match st with
  | [a; b; c; d; e; f; g; h] =>
      let t1 := add (add (add h (Sigma1 e)) (add (Ch e f g) (fst kw))) (snd kw) in
      let t2 := add (Sigma0 a) (Maj a b c) in
      [add t1 t2; a; b; c; add d t1; e; f; g]
  | _ => st
  end.

Definition compress (h : list Z) (block : list Z) : list Z :=
  let w := rev (schedule 48 (rev (words_of block 16))) in
  let st := fold_left round (combine K w) h in
  map (fun p => add (fst p) (snd p)) (combine h st).

Fixpoint blocks (fuel : nat) (bytes : list Z) (h : list Z) : list Z :=
  match fuel with
  | O => h
  | S fuel' =>
      match bytes with
      | [] => h
      | _ => blocks fuel' (skipn 64 bytes) (compress h (firstn 64 bytes))
      end
  end.

Definition word_bytes (x : Z) : list Z :=
  [Z.shiftr x 24; Z.land (Z.shiftr x 16) 255; Z.land (Z.shiftr x 8) 255; Z.land x 255].

Definition sha256 (msg : list Z) : list Z :=
  let p := pad msg in
  flat_map word_bytes (blocks (List.length p) p H0).

End Sha256.

(** *** The [bs58check] package: Base58 with a 4-byte double-SHA-256 checksum *)

Module Bs58check.

Definition ALPHABET : string := "123456789ABCDEFGHJKLMNPQRSTUVWXYZabcdefghijkmnopqrstuvwxyz".

(** The digits of the characters: [None] at a character outside the alphabet. *)
Fixpoint digits (cs : list ascii) : option (list Z) :=
  match cs with
  | [] => Some []
  | c :: cs' =>
      match Js.index_from c ALPHABET 0, digits cs' with
      | Some d, Some ds => Some (d :: ds)
      | _, _ => None
      end
  end.

Fixpoint leading_zeros (ds : list Z) : nat :=
  match ds with
  | 0 :: ds' => S (leading_zeros ds')
  | _ => O
  end.

(** The big-endian bytes of [n], none for 0; [fuel] bounds their number. *)
Fixpoint bytes_of (fuel : nat) (n : Z) (acc : list Z) : list Z :=
  match fuel with
  | O => acc
  | S fuel' => if n =? 0 then acc else bytes_of fuel' (n / 256) (n mod 256 :: acc)
  end.

(** [bs58.decode]: as many zero bytes as leading [1]s, then the number the
    digits write in base 58. *)
Definition base58_decode (s : string) : outcome (list Z) :=
  match digits (list_ascii_of_string s) with
  | None => Throws "Non-base58 character"
  | Some ds =>
      let n := fold_left (fun acc d => acc * 58 + d) ds 0 in
      Returns (repeat 0 (leading_zeros ds) ++ bytes_of (List.length ds) n [])%list
  end.

(** [decodeRaw]: the last four bytes are the checksum of the others; a
    missing checksum byte is [undefined], and [undefined ^ x] is [x]. *)
Definition decodeRaw (buffer : list Z) : option (list Z) :=
  let n := List.length buffer in
  let payload := firstn (n - 4) buffer in
  let checksum := skipn (n - 4) buffer in
  let newChecksum := Sha256.sha256 (Sha256.sha256 payload) in
  let differ i := Z.lxor (nth i checksum 0) (nth i newChecksum 0) in
  if Z.lor (Z.lor (Z.lor (differ 0%nat) (differ 1%nat)) (differ 2%nat)) (differ 3%nat) =? 0
  then Some payload
  else None.

(** [bs58check.decode] *)
Definition decode (s : string) : outcome (list Z) :=
  buffer <- base58_decode s ;;
  match decodeRaw buffer with
  | Some payload => Returns payload
  | None => Throws "Invalid checksum"
  end.

End Bs58check.

(** *** The [keccak256] package: Keccak-f[1600] with rate 136 and the
    original Keccak padding *)

Module Keccak.

Definition w64 (x : Z) : Z := x mod 2 ^ 64.
Definition rotl (n x : Z) : Z := Z.lor (w64 (Z.shiftl x n)) (Z.shiftr x (64 - n)).

Definition RC : list Z := [
  0x0000000000000001; 0x0000000000008082; 0x800000000000808A; 0x8000000080008000;
  0x000000000000808B; 0x0000000080000001; 0x8000000080008081; 0x8000000000008009;
  0x000000000000008A; 0x0000000000000088; 0x0000000080008009; 0x000000008000000A;
  0x000000008000808B; 0x800000000000008B; 0x8000000000008089; 0x8000000000008003;
  0x8000000000008002; 0x8000000000000080; 0x000000000000800A; 0x800000008000000A;
  0x8000000080008081; 0x8000000000008080; 0x0000000080000001; 0x8000000080008008].

(** Rotation offsets, at index [x + 5 * y]. *)
Definition offsets : list Z := [
   0;  1; 62; 28; 27;
  36; 44;  6; 55; 20;
   3; 10; 43; 25; 39;
  41; 45; 15; 21;  8;
  18;  2; 61; 56; 14].

Definition lane (A : list Z) (x y : Z) : Z :=
  nth (Z.to_nat (x mod 5 + 5 * (y mod 5))) A 0.

Definition coords : list (Z * Z) :=
  flat_map (fun y => map (fun x => (x, y)) [0; 1; 2; 3; 4]) [0; 1; 2; 3; 4].

Definition theta (A : list Z) : list Z :=
  let C x := fold_left Z.lxor (map (lane A x) [0; 1; 2; 3; 4]) 0 in
  let D x := Z.lxor (C (x - 1)) (rotl 1 (C (x + 1))) in
  map (fun p => Z.lxor (lane A (fst p) (snd p)) (D (fst p))) coords.

(** B[y, 2x + 3y] = rot(A[x, y]): the lane at (X, Y) comes from
    x = X + 3Y and y = X. *)
Definition rho_pi (A : list Z) : list Z :=
  map (fun p =>
         let x := (fst p + 3 * snd p) mod 5 in
         let y := fst p in
         rotl (nth (Z.to_nat (x + 5 * y)) offsets 0) (lane A x y)) coords.

Definition chi (B : list Z) : list Z :=
  map (fun p =>
         Z.lxor (lane B (fst p) (snd p))
           (Z.land (Z.lxor (lane B (fst p + 1) (snd p)) (2 ^ 64 - 1))
                   (lane B (fst p + 2) (snd p)))) coords.

Definition iota (rc : Z) (A : list Z) : list Z :=
  match A with
  | a :: rest => Z.lxor a rc :: rest
  | [] => []
  end.

Definition round (A : list Z) (rc : Z) : list Z := iota rc (chi (rho_pi (theta A))).

Definition permute (A : list Z) : list Z := fold_left round RC A.

Fixpoint lanes_of (bytes : list Z) (n : nat) : list Z :=
  match n with
  | O => []
  | S n' =>
      fold_right (fun b acc => b + 256 * acc) 0 (firstn 8 bytes)
        :: lanes_of (skipn 8 bytes) n'
  end.

Definition lane_bytes (x : Z) : list Z :=
  map (fun i => Z.land (Z.shiftr x (8 * i)) 255) [0; 1; 2; 3; 4; 5; 6; 7].

Definition rate : nat := 136.

(** Keccak's padding: a 1 bit, zeros, and a 1 bit at the end of the block. *)
Definition pad (msg : list Z) : list Z :=
  let q := (rate - List.length msg mod rate)%nat in
  if Nat.eqb q 1 then (msg ++ [0x81])%list
  else (msg ++ [0x01] ++ repeat 0 (q - 2) ++ [0x80])%list.

Fixpoint absorb (fuel : nat) (bytes : list Z) (A : list Z) : list Z :=
  match fuel with
  | O => A
  | S fuel' =>
      match bytes with
      | [] => A
      | _ =>
          let block := lanes_of (firstn rate bytes) 25 in
          absorb fuel' (skipn rate bytes)
            (permute (map (fun p => Z.lxor (fst p) (snd p)) (combine A block)))
      end
  end.

(** [keccak256(message)]: the 32 bytes of the digest. *)
Definition keccak256 (msg : list Z) : list Z :=
  let p := pad msg in
  firstn 32 (flat_map lane_bytes (absorb (List.length p) p (repeat 0 25))).

End Keccak.

(** *** [./crypto/cnbase58] *)

Module CnBase58.

Definition alphabet : string := "123456789ABCDEFGHJKLMNPQRSTUVWXYZabcdefghijkmnopqrstuvwxyz".

(** The number of bytes a block of [n] characters holds. *)
Definition block_bytes (n : nat) : option nat :=
  match n with
  | 0 => Some 0 | 2 => Some 1 | 3 => Some 2 | 5 => Some 3 | 6 => Some 4
  | 7 => Some 5 | 9 => Some 6 | 10 => Some 7 | 11 => Some 8
  | _ => None
  end%nat.

Fixpoint number (cs : list ascii) (acc : Z) : option Z :=
  match cs with
  | [] => Some acc
  | c :: cs' =>
      match Js.index_from c alphabet 0 with
      | Some d => number cs' (acc * 58 + d)
      | None => None
      end
  end.

Fixpoint big_endian (size : nat) (n : Z) (acc : list Z) : list Z :=
  match size with
  | O => acc
  | S size' => big_endian size' (n / 256) (n mod 256 :: acc)
  end.

Definition decode_block (cs : list ascii) : option (list Z) :=
  match block_bytes (List.length cs), number cs 0 with
  | Some size, Some n =>
      if n <? 2 ^ (8 * Z.of_nat size) then Some (big_endian size n []) else None
  | _, _ => None
  end.

Fixpoint decode_blocks (fuel : nat) (cs : list ascii) : option (list Z) :=
  match fuel with
  | O => Some []
  | S fuel' =>
      match cs with
      | [] => Some []
      | _ =>
          match decode_block (firstn 11 cs), decode_blocks fuel' (skipn 11 cs) with
          | Some b, Some rest => Some (b ++ rest)%list
          | _, _ => None
          end
      end
  end.

(** Modelled from the spec: [cnBase58.decode] of [./crypto/cnbase58], whose
    file is not among the sources.  The specification describes it as the
    block-wise Monero Base58: 8-byte blocks map to 11 characters, a shorter
    final block is handled on its own, any decode error throws, and the
    result is the string of hexadecimal digits of the decoded bytes. *)
Definition decode (s : string) : outcome string :=
  let cs := list_ascii_of_string s in
  match decode_blocks (List.length cs) cs with
  | Some bytes => Returns (Js.toHex bytes)
  | None => Throws "Invalid address"
  end.

End CnBase58.

(** *** BLAKE2b (RFC 7693), the hash of the de-jumbling *)

Module Blake2b.

Definition w64 (x : Z) : Z := x mod 2 ^ 64.
Definition rotr (n x : Z) : Z := Z.lor (Z.shiftr x n) (w64 (Z.shiftl x (64 - n))).

Definition IV : list Z := [
  0x6a09e667f3bcc908; 0xbb67ae8584caa73b; 0x3c6ef372fe94f82b; 0xa54ff53a5f1d36f1;
  0x510e527fade682d1; 0x9b05688c2b3e6c1f; 0x1f83d9abfb41bd6b; 0x5be0cd19137e2179].

Definition SIGMA : list (list nat) := [
  [0; 1; 2; 3; 4; 5; 6; 7; 8; 9; 10; 11; 12; 13; 14; 15];
  [14; 10; 4; 8; 9; 15; 13; 6; 1; 12; 0; 2; 11; 7; 5; 3];
  [11; 8; 12; 0; 5; 2; 15; 13; 10; 14; 3; 6; 7; 1; 9; 4];
  [7; 9; 3; 1; 13; 12; 11; 14; 2; 6; 5; 10; 4; 0; 15; 8];
  [9; 0; 5; 7; 2; 4; 10; 15; 14; 1; 11; 12; 6; 8; 3; 13];
  [2; 12; 6; 10; 0; 11; 8; 3; 4; 13; 7; 5; 15; 14; 1; 9];
  [12; 5; 1; 15; 14; 13; 4; 10; 0; 7; 6; 3; 9; 2; 8; 11];
  [13; 11; 7; 14; 12; 1; 3; 9; 5; 0; 15; 4; 8; 6; 2; 10];
  [6; 15; 14; 9; 11; 3; 0; 8; 12; 2; 13; 7; 1; 4; 10; 5];
  [10; 2; 8; 4; 7; 6; 1; 5; 15; 11; 9; 14; 3; 12; 13; 0];
  [0; 1; 2; 3; 4; 5; 6; 7; 8; 9; 10; 11; 12; 13; 14; 15];
  [14; 10; 4; 8; 9; 15; 13; 6; 1; 12; 0; 2; 11; 7; 5; 3]]%nat.

Fixpoint set (i : nat) (x : Z) (v : list Z) : list Z :=
  match v, i with
  | [], _ => []
  | _ :: v', O => x :: v'
  | y :: v', S i' => y :: set i' x v'
  end.

Definition G (a b c d : nat) (x y : Z) (v : list Z) : list Z :=
  let va := nth a v 0 in
  let vb := nth b v 0 in
  let vc := nth c v 0 in
  let vd := nth d v 0 in
  let va := w64 (va + vb + x) in
  let vd := rotr 32 (Z.lxor vd va) in
  let vc := w64 (vc + vd) in
  let vb := rotr 24 (Z.lxor vb vc) in
  let va := w64 (va + vb + y) in
  let vd := rotr 16 (Z.lxor vd va) in
  let vc := w64 (vc + vd) in
  let vb := rotr 63 (Z.lxor vb vc) in
  set a va (set b vb (set c vc (set d vd v))).

Definition round (m : list Z) (v : list Z) (s : list nat) : list Z :=
  let w i := nth (nth i s 0%nat) m 0 in
  let v := G 0 4 8 12 (w 0%nat) (w 1%nat) v in
  let v := G 1 5 9 13 (w 2%nat) (w 3%nat) v in
  let v := G 2 6 10 14 (w 4%nat) (w 5%nat) v in
  let v := G 3 7 11 15 (w 6%nat) (w 7%nat) v in
  let v := G 0 5 10 15 (w 8%nat) (w 9%nat) v in
  let v := G 1 6 11 12 (w 10%nat) (w 11%nat) v in
  let v := G 2 7 8 13 (w 12%nat) (w 13%nat) v in
  G 3 4 9 14 (w 14%nat) (w 15%nat) v.

Definition le64 (bytes : list Z) : Z := fold_right (fun b acc => b + 256 * acc) 0 bytes.

Fixpoint words_of (bytes : list Z) (n : nat) : list Z :=
  match n with
  | O => []
  | S n' => le64 (firstn 8 bytes) :: words_of (skipn 8 bytes) n'
  end.

Definition compress (h : list Z) (block : list Z) (t : Z) (last : bool) : list Z :=
  let m := words_of (block ++ repeat 0 (128 - List.length block))%list 16 in
  let v := (h ++ IV)%list in
  let v := set 12 (Z.lxor (nth 12 v 0) (w64 t)) v in
  let v := set 13 (Z.lxor (nth 13 v 0) (Z.shiftr t 64)) v in
  let v := if last then set 14 (Z.lxor (nth 14 v 0) (2 ^ 64 - 1)) v else v in
  let v := fold_left (round m) SIGMA v in
  map (fun i => Z.lxor (Z.lxor (nth i h 0) (nth i v 0)) (nth (i + 8) v 0)) (seq 0 8).

Fixpoint blocks (fuel : nat) (bytes : list Z) (t : Z) (h : list Z) : list Z :=
  match fuel with
  | O => h
  | S fuel' =>
      if (List.length bytes <=? 128)%nat
      then compress h bytes (t + Z.of_nat (List.length bytes)) true
      else blocks fuel' (skipn 128 bytes) (t + 128)
             (compress h (firstn 128 bytes) (t + 128) false)
  end.

Definition word_bytes (x : Z) : list Z :=
  map (fun i => Z.land (Z.shiftr x (8 * i)) 255) [0; 1; 2; 3; 4; 5; 6; 7].

(** Unkeyed BLAKE2b with [outlen] bytes of output and a personalisation of at
    most 16 bytes. *)
Definition hash (outlen : nat) (personal : list Z) (msg : list Z) : list Z :=
  let p := (personal ++ repeat 0 (16 - List.length personal))%list in
  let h := set 0 (Z.lxor (nth 0 IV 0) (0x01010000 + Z.of_nat outlen)) IV in
  let h := set 6 (Z.lxor (nth 6 IV 0) (le64 (firstn 8 p))) h in
  let h := set 7 (Z.lxor (nth 7 IV 0) (le64 (skipn 8 p))) h in
  firstn outlen (flat_map word_bytes (blocks (S (List.length msg)) msg 0 h)).

End Blake2b.

(** *** [./crypto/f4jumble] *)

Module F4Jumble.

Definition xor (a b : list Z) : list Z :=
  map (fun p => Z.lxor (fst p) (snd p)) (combine a b).

Definition personal_H (i : Z) : list Z :=
  (Js.bytes_of_string "UA_F4Jumble_H" ++ [i; 0; 0])%list.
Definition personal_G (i j : Z) : list Z :=
  (Js.bytes_of_string "UA_F4Jumble_G" ++ [i; j mod 256; j / 256])%list.

Definition H (i : Z) (lL : nat) (u : list Z) : list Z := Blake2b.hash lL (personal_H i) u.

Definition G (i : Z) (lR : nat) (u : list Z) : list Z :=
  firstn lR (flat_map (fun j => Blake2b.hash 64 (personal_G i (Z.of_nat j)) u)
               (seq 0 ((lR + 63) / 64))).

(** The jumbling of Zcash unified addresses (ZIP 316): four Feistel rounds
    over the two parts of the message. *)
Definition f4Jumble (M : list Z) : list Z :=
  let lM := List.length M in
  let lL := Nat.min (lM / 2) 64 in
  let lR := (lM - lL)%nat in
  let a := firstn lL M in
  let b := skipn lL M in
  let x := xor b (G 0 lR a) in
  let y := xor a (H 0 lL x) in
  let d := xor x (G 1 lR y) in
  let c := xor y (H 1 lL d) in
  (c ++ d)%list.

(** Modelled from the spec: [f4Unjumble] of [./crypto/f4jumble], whose file is
    not among the sources.  The specification describes it as the reverse of
    the length-dependent permute-and-mask transform of Zcash unified
    addresses, to be reproduced bit-exactly: the four rounds of [f4Jumble]
    undone in reverse order.  ZIP 316 defines the transform on 48 to 4194368
    bytes; the examples use it there only. *)
Definition f4Unjumble (M : list Z) : outcome (list Z) :=
  let lM := List.length M in
  let lL := Nat.min (lM / 2) 64 in
  let lR := (lM - lL)%nat in
  let c := firstn lL M in
  let d := skipn lL M in
  let y := xor c (H 1 lL d) in
  let x := xor d (G 1 lR y) in
  let a := xor y (H 0 lL x) in
  let b := xor x (G 0 lR a) in
  Returns (a ++ b)%list.

End F4Jumble.

(** ** Vocabulary of the specification *)

Abbreviation chars := list_ascii_of_string.
Abbreviation text := string_of_list_ascii.

(** The first [n] characters, all but the last [n], and the last [n]. *)
Definition first_chars (n : nat) (s : string) : string := text (firstn n (chars s)).
Definition all_but_last (n : nat) (s : string) : string :=
  text (firstn (String.length s - n) (chars s)).
Definition last_chars (n : nat) (s : string) : string :=
  text (skipn (String.length s - n) (chars s)).

(** [s] right-padded with the digit 0 to [n] characters. *)
Definition pad_end (n : nat) (s : string) : string :=
  s ++ text (repeat "0"%char (n - String.length s)).

(** [s] starts with [p]. *)
Definition has_prefix (s p : string) : Prop := exists rest, s = p ++ rest.

(** [buf] starts with the bytes of [alternative]. *)
Definition starts_with (buf alternative : list Z) : Prop :=
  exists rest, buf = (alternative ++ rest)%list.

(** The network selects a configured human-readable prefix, and [prefix] is
    it. *)
Definition configured_prefix (opts : Bech32Opts.t) (network prefix : string) : Prop :=
  (network = "main" /\ prefix = Bech32Opts.mainNetPrefix opts) \/
  (network = "test" /\ prefix = Bech32Opts.testNetPrefix opts) \/
  (network = "regtest" /\ Bech32Opts.regtestPrefix opts = Some prefix).

(** The network selects the configured prefix table [table]. *)
Definition configured_table (opts : Base58Opts.t) (network : string)
  (table : list (list Z)) : Prop :=
  (network = "main" /\ Base58Opts.mainNetPrefix opts = Some table) \/
  (network = "test" /\ Base58Opts.testNetPrefix opts = Some table) \/
  (network = "regtest" /\ Base58Opts.regtestPrefix opts = Some table).

(** [decoded] starts with one of the three prefixes of the network. *)
Definition configured_xmr_prefix (opts : XmrOpts.t) (network decoded : string) : Prop :=
  (network = "main" /\
   exists p, In p [XmrOpts.mainNetPublicAddrPrefix opts;
                   XmrOpts.mainNetIntegratedAddrPrefix opts;
                   XmrOpts.mainNetSubAddrPrefix opts] /\ has_prefix decoded p) \/
  (network = "test" /\
   exists p, In p [XmrOpts.testNetPublicAddrPrefix opts;
                   XmrOpts.testNetIntegratedAddrPrefix opts;
                   XmrOpts.testNetSubAddrPrefix opts] /\ has_prefix decoded p).

(** The hexadecimal digits of the network's prefix, padded with 0 and cut to
    [width] digits, are the last 32 digits of the payload. *)
Definition padding_confirmed (width : nat) (opts : Bech32Opts.t) (network : string)
  (res : list Z) : Prop :=
  (network = "main" /\
   last_chars 32 (Js.toHex res) =
   first_chars width
     (pad_end width (Js.toHex (Js.bytes_of_string (Bech32Opts.mainNetPrefix opts))))) \/
  (network = "test" /\
   last_chars 32 (Js.toHex res) =
   first_chars width
     (pad_end width (Js.toHex (Js.bytes_of_string (Bech32Opts.testNetPrefix opts))))).

(** The ceiling [decode] applies to the length of the candidate:
    [LIMIT || 90]. *)
Definition ceiling (LIMIT : option Z) : Z :=
  match LIMIT with
  | Some l => if l =? 0 then 90 else l
  | None => 90
  end.

(** The candidate decodes when no ceiling stands in its way: it decodes under
    a ceiling that admits it. *)
Definition decodes_unbounded (enc : Bech32.encoding) (str : string)
  (d : Bech32.Decoded) : Prop :=
  Bech32.decode enc str (Some (Z.max 1 (Js.length str))) = Returns d.


(** A byte, and a word of five bits. *)
Definition is_byte (b : Z) : Prop := 0 <= b <= 255.
Definition is_word (w : Z) : Prop := 0 <= w < 32.

(** The elements as a [Buffer] or a [Uint8Array] holds them: the low 8 bits
    of each. *)
Definition low_bytes (l : list Z) : list Z := map (fun b => Z.land b 255) l.

(** An e-mail address as the pattern of [validate] reads it. *)
Module Email.

(** A label of the domain: 1 to 63 letters, digits and hyphens, the first and
    the last no hyphen. *)
Definition is_label (l : list ascii) : Prop :=
  (List.length l <= 63)%nat /\
  Forall (fun c => Blackpay.alnum_hyphen c = true) l /\
  (exists c rest, l = c :: rest /\ Blackpay.alnum c = true) /\
  (exists front c, l = (front ++ [c])%list /\ Blackpay.alnum c = true).

(** A non-empty local part, an [@], and one or more labels separated by
    dots. *)
Definition is_email (w : list ascii) : Prop :=
  exists local first more,
    w = (local ++ "@"%char :: first ++ flat_map (fun l => "."%char :: l) more)%list /\
    local <> [] /\
    Forall (fun c => Blackpay.local_char c = true) local /\
    is_label first /\
    Forall is_label more.

End Email.

(** ** Configurations and candidates of the examples *)

Module Examples.

Definition btc_opts : Bech32Opts.t :=
  {| Bech32Opts.mainNetPrefix := "bc";
     Bech32Opts.testNetPrefix := "tb";
     Bech32Opts.regtestPrefix := Some "bcrt" |}.

Definition ln_opts : Bech32Opts.t :=
  {| Bech32Opts.mainNetPrefix := "lnbc";
     Bech32Opts.testNetPrefix := "lntb";
     Bech32Opts.regtestPrefix := None |}.

Definition zec_opts : Bech32Opts.t :=
  {| Bech32Opts.mainNetPrefix := "zs";
     Bech32Opts.testNetPrefix := "ztestsapling";
     Bech32Opts.regtestPrefix := None |}.


Definition zec_unified_opts : Bech32Opts.t :=
  {| Bech32Opts.mainNetPrefix := "u";
     Bech32Opts.testNetPrefix := "utest";
     Bech32Opts.regtestPrefix := None |}.

Definition xmr_opts : XmrOpts.t :=
  {| XmrOpts.mainNetPublicAddrPrefix := "12";
     XmrOpts.mainNetIntegratedAddrPrefix := "13";
     XmrOpts.mainNetSubAddrPrefix := "2a";
     XmrOpts.testNetPublicAddrPrefix := "35";
     XmrOpts.testNetIntegratedAddrPrefix := "36";
     XmrOpts.testNetSubAddrPrefix := "3f" |}.

(** A configuration whose main-net prefixes are longer than a payload of no
    digits. *)
Definition xmr_long_prefix_opts : XmrOpts.t :=
  {| XmrOpts.mainNetPublicAddrPrefix := "c5";
     XmrOpts.mainNetIntegratedAddrPrefix := "c6";
     XmrOpts.mainNetSubAddrPrefix := "c7";
     XmrOpts.testNetPublicAddrPrefix := "35";
     XmrOpts.testNetIntegratedAddrPrefix := "36";
     XmrOpts.testNetSubAddrPrefix := "3f" |}.

(** A prefix table whose only alternative has no byte. *)
Definition empty_alternative_opts : Base58Opts.t :=
  {| Base58Opts.bufferLength := 21;
     Base58Opts.mainNetPrefix := Some [[]];
     Base58Opts.testNetPrefix := None;
     Base58Opts.regtestPrefix := None |}.

Definition test_6f_opts : Base58Opts.t :=
  {| Base58Opts.bufferLength := 21;
     Base58Opts.mainNetPrefix := Some [[0x41]];
     Base58Opts.testNetPrefix := Some [[0x6f]];
     Base58Opts.regtestPrefix := None |}.

(** A Tron address: 21 bytes, the first 0x41. *)
Definition tron_address : string := "TJRabPrwbZy45sbavfcjinPJC18kjpRTv8".

(** The segwit address of the specification's examples. *)
Definition segwit_address : string := "bc1qar0srrr7xfkvy5l643lydnw9re59gtzzwf5mdq".

(** A Taproot address (BIP-350). *)
Definition taproot_address : string :=
  "bc1p0xlxvlhemja6c4dqv22uapctqupfhlxm9h8z3k2e72q4k9hcz7vqzk5jj0".

(** Bech32m with witness version 17 and a 32-byte program under [bc]. *)
Definition version_17_address : string :=
  "bc13qypqxpq9qcrsszg2pvxq6rs0zqg3yyc5z5tpwxqergd3c8g7rusqjz4s3l".

(** Bech32 strings with a valid checksum whose words do not re-pack to whole
    bytes: invalid addresses of the test vectors of BIP-173 and BIP-350. *)
Definition nonzero_padding_address : string :=
  "tb1qrp33g0q5c5txsp9arysrx4k6zdkfs4nce4xj0gdcccefvpysxf3pjxtptv".
Definition excess_padding_address : string :=
  "bc1p0xlxvlhemja6c4dqv22uapctqupfhlxm9h8z3k2e72q4k9hcz7v07qwwzcrf".
Definition short_program_address : string := "bc1pw5dgrnzv".

(** Bech32 of the bytes 1..43 under the prefixes of Sapling addresses: 78, 88
    and 91 characters. *)
Definition sapling_address : string :=
  "zs1qypqxpq9qcrsszg2pvxq6rs0zqg3yyc5z5tpwxqergd3c8g7ruszzg3rysjjvfeg9y4zkvtfdeq".
Definition sapling_test_address : string :=
  "ztestsapling1qypqxpq9qcrsszg2pvxq6rs0zqg3yyc5z5tpwxqergd3c8g7ruszzg3rysjjvfeg9y4zkyumw75".



(** What [decode] returns on [segwit_address]: the prefix [bc] and 33
    words. *)
Definition segwit_decoded : Bech32.Decoded :=
  Eval vm_compute in
    match Bech32.decode Bech32.bech32 segwit_address None with
    | Returns d => d
    | Throws _ => {| Bech32.prefix := ""; Bech32.words := [] |}
    end.

(** A Bech32 string under [lnbc] whose first word is 1. *)
Definition invoice : string := "lnbc1pzrux4t4q".

(** The payload of the unified-address example: the bytes 1..32, then [u] and
    fifteen zero bytes. *)
Definition unified_payload : list Z :=
  (map Z.of_nat (seq 1 32) ++ [0x75; 0; 0; 0; 0; 0; 0; 0; 0; 0; 0; 0; 0; 0; 0; 0])%list.

(** Bech32m under [u] of the jumbled [unified_payload]. *)
Definition unified_address : string :=
  "u1ppcsfds2trvqc2epf8w873cam3de6p3slvw248u8qrmn229q9qwxnweqlj6pv7jfc0tm5m6u76kmyphecws".

(** The donation address of the Monero project. *)
Definition monero_address : string :=
  "44AFFq5kSiGBoZ4NMDwYtN18obc8AemS33DBLWs3H7otXft3XjrpDtQGv7SqSsaBYBb98uNbr2VBBEt7f2wfn3RVGQBEP3A".

(** Six characters that decode to the four bytes of the Keccak-256 checksum
    of no bytes. *)
Definition checksum_only_address : string := "64HByS".

(** A decoder that returns nine digits followed by eight: a payload of odd
    length. *)
Definition odd_decode (address : string) : outcome string := Returns "12345678901234567".

(** The 69 bytes of [monero_address]: the network byte, two keys and the
    checksum. *)
Definition monero_bytes : list Z :=
  Eval vm_compute in
    match CnBase58.decode_blocks 95 (chars monero_address) with
    | Some bytes => bytes
    | None => []
    end.

End Examples.

(** * Properties *)

(** ** Reading an [outcome] *)

Lemma bind_Returns {A B : Type} (m : outcome A) (k : A -> outcome B) (b : B) :
  bind m k = Returns b <-> exists a, m = Returns a /\ k a = Returns b.
Proof.
  destruct m as [a|e]; simpl; split.
  - intros H. exists a. split; [reflexivity | exact H].
  - intros (a' & Ha & Hk). injection Ha as ->. exact Hk.
  - discriminate.
  - intros (a' & Ha & _). discriminate.
Qed.

Lemma bind_Throws {A B : Type} (m : outcome A) (k : A -> outcome B) (e : string) :
  bind m k = Throws e <-> m = Throws e \/ exists a, m = Returns a /\ k a = Throws e.
Proof.
  destruct m as [a|e']; simpl; split.
  - intros H. right. exists a. split; [reflexivity | exact H].
  - intros [H|(a' & Ha & Hk)]; [discriminate | injection Ha as ->; exact Hk].
  - intros H. left. injection H as ->. reflexivity.
  - intros [H|(a' & Ha & _)]; [injection H as ->; reflexivity | discriminate].
Qed.

(** ** Strings as lists of characters *)

Lemma chars_length (s : string) : List.length (chars s) = String.length s.
Proof. induction s as [|c s IH]; simpl; congruence. Qed.

Lemma chars_append (s t : string) : chars (s ++ t) = (chars s ++ chars t)%list.
Proof. induction s as [|c s IH]; simpl; congruence. Qed.

Lemma chars_substring (a b : nat) (s : string) :
  chars (String.substring a b s) = firstn b (skipn a (chars s)).
Proof.
  revert a b. induction s as [|c s IH]; intros a b.
  - destruct a, b; reflexivity.
  - destruct a as [|a].
    + destruct b as [|b]; simpl; [reflexivity|]. rewrite (IH 0%nat b). reflexivity.
    + simpl. apply IH.
Qed.

Lemma chars_inj (s t : string) : chars s = chars t -> s = t.
Proof.
  intros H.
  rewrite <- (string_of_list_ascii_of_string s), <- (string_of_list_ascii_of_string t), H.
  reflexivity.
Qed.

Lemma substring0_first_chars (s : string) (n : Z) :
  Js.substring0 s n = first_chars (Z.to_nat n) s.
Proof.
  apply chars_inj. unfold Js.substring0, first_chars.
  rewrite chars_substring, list_ascii_of_string_of_list_ascii. reflexivity.
Qed.

Lemma slice_all_but_last (s : string) (n : nat) :
  (0 < n)%nat -> Js.slice s 0 (- Z.of_nat n) = all_but_last n s.
Proof.
  intros Hn. apply chars_inj. unfold Js.slice, all_but_last, Js.length.
  rewrite chars_substring, list_ascii_of_string_of_list_ascii.
  replace (0 <? 0) with false by reflexivity.
  replace (- Z.of_nat n <? 0) with true by (symmetry; apply Z.ltb_lt; lia).
  replace (Z.to_nat (Z.min 0 (Z.of_nat (String.length s)))) with 0%nat by lia.
  simpl skipn. f_equal. lia.
Qed.

Lemma slice_from_last_chars (s : string) (n : nat) :
  (0 < n)%nat -> Js.slice_from s (- Z.of_nat n) = last_chars n s.
Proof.
  intros Hn. apply chars_inj. unfold Js.slice_from, Js.slice, last_chars, Js.length.
  rewrite chars_substring, list_ascii_of_string_of_list_ascii.
  replace (- Z.of_nat n <? 0) with true by (symmetry; apply Z.ltb_lt; lia).
  replace (Z.of_nat (String.length s) <? 0) with false by (symmetry; apply Z.ltb_ge; lia).
  replace (Z.to_nat (Z.max (Z.of_nat (String.length s) + - Z.of_nat n) 0))
    with (String.length s - n)%nat by lia.
  apply firstn_all2. rewrite length_skipn, chars_length. lia.
Qed.

(** The payload and the checksum are the two parts of the decoded string. *)
Lemma all_but_last_last_chars (n : nat) (s : string) :
  all_but_last n s ++ last_chars n s = s.
Proof.
  apply chars_inj. unfold all_but_last, last_chars.
  rewrite chars_append, !list_ascii_of_string_of_list_ascii. apply firstn_skipn.
Qed.

Lemma last_chars_length (n : nat) (s : string) :
  (n <= String.length s)%nat -> String.length (last_chars n s) = n.
Proof.
  intros H. unfold last_chars.
  rewrite <- chars_length, list_ascii_of_string_of_list_ascii, length_skipn, chars_length.
  lia.
Qed.

Lemma startsWith_iff (s p : string) : Js.startsWith s p = true <-> has_prefix s p.
Proof.
  unfold Js.startsWith, has_prefix. revert s.
  induction p as [|c p IH]; intros s.
  - destruct s; simpl; split; eauto.
  - destruct s as [|d s]; simpl.
    + split; [discriminate | intros [rest H]; discriminate].
    + destruct (Ascii.ascii_dec c d) as [->|Hcd].
      * rewrite IH. split; intros [rest H]; exists rest; congruence.
      * split; [discriminate | intros [rest H]; congruence].
Qed.

Lemma firstn_of_repeat (k n : nat) (c : ascii) :
  firstn k (repeat c n) = repeat c (Nat.min k n).
Proof.
  revert n. induction k as [|k IH]; intros [|n]; simpl; try reflexivity.
  rewrite IH. reflexivity.
Qed.

(** Cutting at [n] forgets how much padding there was beyond [n]. *)
Lemma firstn_padding (n : nat) (c : ascii) (h : list ascii) :
  firstn n (h ++ repeat c n) = firstn n (h ++ repeat c (n - List.length h)).
Proof.
  rewrite !firstn_app, !firstn_of_repeat. f_equal. f_equal. lia.
Qed.

(** ** The length ceiling of [Bech32.decode] *)

Lemma decode_ceiling (enc : Bech32.encoding) (str : string) (l1 l2 : option Z) :
  Js.length str <= ceiling l1 -> Js.length str <= ceiling l2 ->
  Bech32.decode enc str l1 = Bech32.decode enc str l2.
Proof.
  intros H1 H2. unfold Bech32.decode, Bech32.decode_.
  fold (ceiling l1). fold (ceiling l2).
  destruct (Js.length str <? 8); [reflexivity|].
  replace (Js.length str >? ceiling l1) with false
    by (symmetry; rewrite Z.gtb_ltb; apply Z.ltb_ge; lia).
  replace (Js.length str >? ceiling l2) with false
    by (symmetry; rewrite Z.gtb_ltb; apply Z.ltb_ge; lia).
  reflexivity.
Qed.

Lemma decode_within_ceiling (enc : Bech32.encoding) (str : string) (l : option Z)
  (d : Bech32.Decoded) :
  Bech32.decode enc str l = Returns d -> Js.length str <= ceiling l.
Proof.
  unfold Bech32.decode, Bech32.decode_. fold (ceiling l).
  destruct (Js.length str <? 8); [discriminate|].
  destruct (Js.length str >? ceiling l) eqn:H; [discriminate|].
  intros _. rewrite Z.gtb_ltb in H. apply Z.ltb_ge in H. exact H.
Qed.

(** A limit of 0 is no limit: [0 || 90] is 90. *)
Lemma decode_limit_zero (enc : Bech32.encoding) (str : string) :
  Bech32.decode enc str (Some 0) = Bech32.decode enc str None.
Proof. reflexivity. Qed.

(** [decode] succeeds when the candidate is within the ceiling and decodes
    without one. *)
Lemma decode_iff_unbounded (enc : Bech32.encoding) (str : string) (l : option Z)
  (d : Bech32.Decoded) :
  Bech32.decode enc str l = Returns d <->
  Js.length str <= ceiling l /\ decodes_unbounded enc str d.
Proof.
  unfold decodes_unbounded.
  assert (Hc : Js.length str <= ceiling (Some (Z.max 1 (Js.length str)))).
  { simpl. destruct (Z.max 1 (Js.length str) =? 0) eqn:E; lia. }
  split.
  - intros H. pose proof (decode_within_ceiling _ _ _ _ H) as Hl. split; [exact Hl|].
    rewrite <- H. apply decode_ceiling; assumption.
  - intros [Hl H]. rewrite <- H. apply decode_ceiling; assumption.
Qed.

(** ** The models of the packages, on published test vectors *)

Example bech32_decode_bip173 :
  Bech32.decode Bech32.bech32 "A12UEL5L" None
  = Returns {| Bech32.prefix := "a"; Bech32.words := [] |}.
Proof. vm_compute. reflexivity. Qed.

Example bech32_program_bip173 :
  (d <- Bech32.decode Bech32.bech32 "BC1QW508D6QEJXTDG4Y5R3ZARVARY0C5XW7KV8F3T4" None ;;
   data <- Bech32.fromWords (skipn 1 (Bech32.words d)) ;;
   Returns (Bech32.prefix d, nth_error (Bech32.words d) 0, Js.toHex data))
  = Returns ("bc", Some 0, "751e76e8199196d454941c45d1b3a323f1433bd6").
Proof. vm_compute. reflexivity. Qed.

Example bech32m_rejects_bech32_checksum :
  Bech32.decode Bech32.bech32m "A12UEL5L" None = Throws "Invalid checksum for a12uel5l".
Proof. vm_compute. reflexivity. Qed.

Example sha256_abc :
  Js.toHex (Sha256.sha256 (Js.bytes_of_string "abc"))
  = "ba7816bf8f01cfea414140de5dae2223b00361a396177a9cb410ff61f20015ad".
Proof. vm_compute. reflexivity. Qed.

Example bs58check_decode_tron :
  Bs58check.decode Examples.tron_address
  = Returns [0x41; 0x5c; 0xbd; 0xd8; 0x6a; 0x2f; 0xa8; 0xdc; 0x4b; 0xdd; 0xd8;
             0xa8; 0xf6; 0x9d; 0xba; 0x48; 0x57; 0x2e; 0xec; 0x07; 0xfb].
Proof. vm_compute. reflexivity. Qed.

Example keccak256_empty :
  Js.toHex (Keccak.keccak256 [])
  = "c5d2460186f7233c927e7db2dcc703c0e500b653ca82273b7bfad8045d85a470".
Proof. vm_compute. reflexivity. Qed.

Example blake2b_abc :
  Js.toHex (firstn 16 (Blake2b.hash 64 [] (Js.bytes_of_string "abc")))
  = "ba80a53f981c4d0d6a2797b69f12f6e9".
Proof. vm_compute. reflexivity. Qed.

(** The first test vector of ZIP 316. *)
Example f4Jumble_zip316 :
  option_map (fun M => Js.toHex (F4Jumble.f4Jumble M))
    (hexToBin ("5d7a8f739a2d9e945b0ce152a8049e294c4d6e66b164939d"
               ++ "affa2ef6ee6921481cdd86b3cc4318d9614fc820905d042b"))
  = Some ("0304d029141b995da5387c125970673504d6c764d91ea6c0"
          ++ "82123770c7139ccd88ee27368cd0c0921a0444c8e5858d22").
Proof. vm_compute. reflexivity. Qed.

Example f4Unjumble_f4Jumble :
  F4Jumble.f4Unjumble (F4Jumble.f4Jumble Examples.unified_payload)
  = Returns Examples.unified_payload.
Proof. vm_compute. reflexivity. Qed.

(** ** The validators on the examples of the specification *)

Example base58Validator_tron_main :
  base58Validator Bs58check.decode "main" Examples.tron_address Blackpay.base58Opts
  = Returns true.
Proof. vm_compute. reflexivity. Qed.

Example base58Validator_tron_test_6f :
  base58Validator Bs58check.decode "test" Examples.tron_address Examples.test_6f_opts
  = Returns false.
Proof. vm_compute. reflexivity. Qed.

Example bech32Validator_segwit_main :
  bech32Validator "main" Examples.segwit_address Examples.btc_opts None = Returns true.
Proof. vm_compute. reflexivity. Qed.

Example bech32Validator_segwit_test :
  bech32Validator "test" Examples.segwit_address Examples.btc_opts None = Returns false.
Proof. vm_compute. reflexivity. Qed.

Example bech32mValidator_taproot_main :
  bech32mValidator "main" Examples.taproot_address Examples.btc_opts = Returns true.
Proof. vm_compute. reflexivity. Qed.

Example zecBech32Validator_sapling :
  zecBech32Validator "main" Examples.sapling_address Examples.zec_opts = Returns true /\
  zecBech32Validator "test" Examples.sapling_test_address Examples.zec_opts = Returns true.
Proof. split; vm_compute; reflexivity. Qed.

Example zecBech32mValidator_unified :
  zecBech32mValidator F4Jumble.f4Unjumble "main" Examples.unified_address
    Examples.zec_unified_opts = Returns true /\
  zecBech32mValidator F4Jumble.f4Unjumble "test" Examples.unified_address
    Examples.zec_unified_opts = Returns false.
Proof. split; vm_compute; reflexivity. Qed.

Example xmrValidator_donation_address :
  xmrValidator CnBase58.decode Keccak.keccak256 "main" Examples.monero_address
    Examples.xmr_opts = Returns true /\
  xmrValidator CnBase58.decode Keccak.keccak256 "test" Examples.monero_address
    Examples.xmr_opts = Returns false.
Proof. split; vm_compute; reflexivity. Qed.

(** ** The Bech32 family *)

Lemma network_prefix_matches_iff (network : string) (decoded : Bech32.Decoded)
  (opts : Bech32Opts.t) :
  network_prefix_matches network decoded opts = true <->
  configured_prefix opts network (Bech32.prefix decoded).
Proof.
  unfold network_prefix_matches, configured_prefix, prefix_is.
  destruct (String.eqb_spec network "main") as [Hm|Hm];
  destruct (String.eqb_spec network "test") as [Ht|Ht];
  destruct (String.eqb_spec network "regtest") as [Hr|Hr];
  try (subst; discriminate); simpl.
  - destruct (String.eqb_spec (Bech32.prefix decoded) (Bech32Opts.mainNetPrefix opts)).
    + split; auto.
    + split; [discriminate|]. intros [[_ H]|[[H _]|[H _]]]; congruence.
  - destruct (String.eqb_spec (Bech32.prefix decoded) (Bech32Opts.testNetPrefix opts)).
    + split; auto.
    + split; [discriminate|]. intros [[H _]|[[_ H]|[H _]]]; congruence.
  - destruct (Bech32Opts.regtestPrefix opts) as [p|].
    + destruct (String.eqb_spec (Bech32.prefix decoded) p).
      * subst p. split; auto.
      * split; [discriminate|]. intros [[H _]|[[H _]|[_ H]]]; congruence.
    + split; [discriminate|]. intros [[H _]|[[H _]|[_ H]]]; congruence.
  - split; [discriminate|]. intros [[H _]|[[H _]|[H _]]]; congruence.
Qed.

(** Without a truthy limit, [bech32Validator] is in standard mode. *)
Lemma bech32Validator_standard (network address : string) (opts : Bech32Opts.t)
  (limit : option Z) :
  truthy limit = false ->
  (bech32Validator network address opts limit = Returns true <->
   exists decoded data,
     Bech32.decode Bech32.bech32 address limit = Returns decoded /\
     nth_error (Bech32.words decoded) 0 = Some 0 /\
     Bech32.fromWords (skipn 1 (Bech32.words decoded)) = Returns data /\
     (Z.of_nat (List.length data) = 20 \/ Z.of_nat (List.length data) = 32) /\
     configured_prefix opts network (Bech32.prefix decoded)).
Proof.
  intros Hl. unfold bech32Validator. rewrite Hl.
  destruct (Bech32.decode Bech32.bech32 address limit) as [decoded|e].
  2:{ split; [discriminate | intros (d & data & H & _); discriminate]. }
  destruct (nth_error (Bech32.words decoded) 0) as [v|] eqn:Hv; unfold strict_neq.
  - destruct (Z.eqb_spec v 0) as [->|Hne]; cbn [negb].
    + rewrite bind_Returns. split.
      * intros (data & Hdata & Hk).
        destruct (Z.eqb_spec (Z.of_nat (List.length data)) 20) as [H20|H20];
        destruct (Z.eqb_spec (Z.of_nat (List.length data)) 32) as [H32|H32];
        simpl in Hk; try discriminate; injection Hk as Hk;
        apply network_prefix_matches_iff in Hk;
        exists decoded, data; repeat split; auto.
      * intros (d & data & Hd & _ & Hdata & Hlen & Hp). injection Hd as <-.
        exists data. split; [exact Hdata|].
        replace (negb (Z.of_nat (List.length data) =? 20)
                 && negb (Z.of_nat (List.length data) =? 32)) with false.
        -- f_equal. apply network_prefix_matches_iff. exact Hp.
        -- symmetry. destruct Hlen as [-> | ->]; reflexivity.
    + split; [discriminate|].
      intros (d & data & Hd & Hv' & _). injection Hd as <-. congruence.
  - split; [discriminate|].
    intros (d & data & Hd & Hv' & _). injection Hd as <-. congruence.
Qed.

(** Whether [bech32Validator] throws does not depend on the network. *)
Lemma bech32Validator_Throws (n1 n2 address : string) (opts : Bech32Opts.t)
  (limit : option Z) (e : string) :
  bech32Validator n1 address opts limit = Throws e ->
  bech32Validator n2 address opts limit = Throws e.
Proof.
  unfold bech32Validator.
  destruct (Bech32.decode Bech32.bech32 address limit) as [decoded|e']; [|discriminate].
  destruct (truthy limit).
  - destruct (_ && _); [discriminate|]. destruct (_ && _); discriminate.
  - destruct (strict_neq _ _); [discriminate|].
    destruct (Bech32.fromWords _) as [data|e']; simpl; [|auto].
    destruct (_ && _); discriminate.
Qed.

Lemma isBech32Address_iff (address : string) (opts : Bech32Opts.t)
  (lengthLimit : option Z) :
  isBech32Address address opts lengthLimit = Returns true <->
  bech32Validator "main" address opts lengthLimit = Returns true \/
  bech32Validator "test" address opts lengthLimit = Returns true.
Proof.
  unfold isBech32Address.
  destruct (bech32Validator "main" address opts lengthLimit) as [[|]|e] eqn:Hm; simpl.
  - split; auto.
  - split; [auto | intros [H|H]; [discriminate | exact H]].
  - apply (bech32Validator_Throws _ "test") in Hm. rewrite Hm.
    split; [discriminate | intros [H|H]; discriminate].
Qed.

(** C4: [bech32mValidator] returns [true] exactly when the candidate decodes
    under the Bech32m checksum, its first word (the witness version) is in
    1..16, the other words re-pack to 2..40 bytes, and the decoded prefix is
    the configured prefix of the network ([main], [test] or [regtest]).  A
    candidate that decodes with witness version 17 is rejected, whatever its
    prefix and length. *)
Theorem bech32mValidator_accepts_iff (network address : string) (opts : Bech32Opts.t) :
  (bech32mValidator network address opts = Returns true <->
   exists decoded version data,
     Bech32.decode Bech32.bech32m address None = Returns decoded /\
     nth_error (Bech32.words decoded) 0 = Some version /\
     1 <= version <= 16 /\
     Bech32.fromWords (skipn 1 (Bech32.words decoded)) = Returns data /\
     2 <= Z.of_nat (List.length data) <= 40 /\
     configured_prefix opts network (Bech32.prefix decoded))
  /\
  (forall decoded,
     Bech32.decode Bech32.bech32m address None = Returns decoded ->
     nth_error (Bech32.words decoded) 0 = Some 17 ->
     bech32mValidator network address opts = Returns false).
Proof.
  unfold bech32mValidator. split.
  - destruct (Bech32.decode Bech32.bech32m address None) as [decoded|e].
    2:{ split; [discriminate | intros (d & v & data & H & _); discriminate]. }
    destruct (nth_error (Bech32.words decoded) 0) as [v|] eqn:Hv.
    + destruct ((v <? 1) || (v >? 16)) eqn:Hrange.
      * split; [discriminate|]. intros (d & v' & data & Hd & Hv' & Hr & _).
        injection Hd as <-. rewrite Hv in Hv'. injection Hv' as <-.
        apply orb_true_iff in Hrange. lia.
      * apply orb_false_iff in Hrange.
        rewrite bind_Returns. split.
        -- intros (data & Hdata & Hk).
           destruct ((Z.of_nat (List.length data) <? 2)
                     || (Z.of_nat (List.length data) >? 40)) eqn:Hlen; [discriminate|].
           apply orb_false_iff in Hlen. injection Hk as Hk.
           apply network_prefix_matches_iff in Hk.
           exists decoded, v, data. repeat split; auto; lia.
        -- intros (d & v' & data & Hd & Hv' & Hr & Hdata & Hlen & Hp).
           injection Hd as <-. exists data. split; [exact Hdata|].
           replace ((Z.of_nat (List.length data) <? 2)
                    || (Z.of_nat (List.length data) >? 40))
             with false by (symmetry; apply orb_false_iff; lia).
           f_equal. apply network_prefix_matches_iff. exact Hp.
    + rewrite bind_Returns. split.
      * intros (data & Hdata & Hk). exfalso.
        destruct (Bech32.words decoded) as [|w ws]; [|discriminate].
        vm_compute in Hdata. injection Hdata as <-. discriminate.
      * intros (d & v' & data & Hd & Hv' & _). injection Hd as <-. congruence.
  - intros decoded -> ->. reflexivity.
Qed.

(** A Taproot address is accepted, and the same program under witness version
    17 is rejected. *)
Lemma bech32mValidator_accepts_iff_witness :
  bech32mValidator "main" Examples.taproot_address Examples.btc_opts = Returns true /\
  bech32mValidator "main" Examples.version_17_address Examples.btc_opts = Returns false.
Proof.
  split.
  - apply (proj1 (bech32mValidator_accepts_iff
                    "main" Examples.taproot_address Examples.btc_opts)).
    eexists. exists 1. eexists.
    split; [vm_compute; reflexivity|]. split; [vm_compute; reflexivity|].
    split; [lia|]. split; [vm_compute; reflexivity|].
    split; [vm_compute; split; discriminate|]. left. split; reflexivity.
  - eapply (proj2 (bech32mValidator_accepts_iff
                     "main" Examples.version_17_address Examples.btc_opts));
      vm_compute; reflexivity.
Defined.

(** C5: without a length limit, [bech32Validator] returns [true] exactly when
    the candidate decodes under the Bech32 checksum, its first word is 0, the
    other words re-pack to exactly 20 or exactly 32 bytes, and the decoded
    prefix is the configured prefix of the network. *)
Theorem bech32Validator_standard_mode (network address : string) (opts : Bech32Opts.t) :
  bech32Validator network address opts None = Returns true <->
  exists decoded data,
    Bech32.decode Bech32.bech32 address None = Returns decoded /\
    nth_error (Bech32.words decoded) 0 = Some 0 /\
    Bech32.fromWords (skipn 1 (Bech32.words decoded)) = Returns data /\
    (Z.of_nat (List.length data) = 20 \/ Z.of_nat (List.length data) = 32) /\
    configured_prefix opts network (Bech32.prefix decoded).
Proof. apply bech32Validator_standard. reflexivity. Qed.

(** The segwit address of the specification is accepted for [main]. *)
Lemma bech32Validator_standard_mode_witness :
  bech32Validator "main" Examples.segwit_address Examples.btc_opts None = Returns true.
Proof.
  apply (proj2 (bech32Validator_standard_mode
                  "main" Examples.segwit_address Examples.btc_opts)).
  eexists. eexists.
  split; [vm_compute; reflexivity|]. split; [vm_compute; reflexivity|].
  split; [vm_compute; reflexivity|]. split; [left; vm_compute; reflexivity|].
  left. split; reflexivity.
Defined.

(** C10: a limit of 0 does not select the invoice mode.  The call with limit 0
    is the call with no limit: it requires witness version 0 and 20 or 32
    bytes, and compares the decoded prefix. *)
Theorem bech32Validator_limit_zero (network address : string) (opts : Bech32Opts.t) :
  bech32Validator network address opts (Some 0)
  = bech32Validator network address opts None
  /\
  (bech32Validator network address opts (Some 0) = Returns true <->
   exists decoded data,
     Bech32.decode Bech32.bech32 address None = Returns decoded /\
     nth_error (Bech32.words decoded) 0 = Some 0 /\
     Bech32.fromWords (skipn 1 (Bech32.words decoded)) = Returns data /\
     (Z.of_nat (List.length data) = 20 \/ Z.of_nat (List.length data) = 32) /\
     configured_prefix opts network (Bech32.prefix decoded)).
Proof.
  split; [reflexivity|].
  rewrite <- decode_limit_zero. apply bech32Validator_standard. reflexivity.
Qed.

(** With limit 0 the invoice is rejected for its witness version, although it
    starts with the configured prefix. *)
Lemma bech32Validator_limit_zero_witness :
  bech32Validator "main" Examples.invoice Examples.ln_opts (Some 0)
  = bech32Validator "main" Examples.invoice Examples.ln_opts None /\
  bech32Validator "main" Examples.segwit_address Examples.btc_opts (Some 0) = Returns true.
Proof.
  split.
  - exact (proj1 (bech32Validator_limit_zero "main" Examples.invoice Examples.ln_opts)).
  - apply (proj2 (bech32Validator_limit_zero
                    "main" Examples.segwit_address Examples.btc_opts)).
    eexists. eexists.
    split; [vm_compute; reflexivity|]. split; [vm_compute; reflexivity|].
    split; [vm_compute; reflexivity|]. split; [left; vm_compute; reflexivity|].
    left. split; reflexivity.
Defined.

(** C8, amended: with a limit other than 0, [bech32Validator] decodes with
    that limit as the ceiling and makes no witness-version or length check:
    it returns [true] exactly when the candidate has at most [limit]
    characters and decodes, the network is [main] or [test], and the
    lower-cased candidate starts with the configured prefix of the network; a
    candidate longer than the limit is rejected.  [isBech32Address] returns
    [true] exactly when [bech32Validator] does for [main] or for [test]. *)
Theorem bech32Validator_invoice_mode (network address : string) (opts : Bech32Opts.t)
  (limit : Z) (lengthLimit : option Z) :
  limit <> 0 ->
  (bech32Validator network address opts (Some limit) = Returns true <->
   Js.length address <= limit /\
   (exists decoded, decodes_unbounded Bech32.bech32 address decoded) /\
   ((network = "main" /\
     has_prefix (Js.toLowerCase address) (Bech32Opts.mainNetPrefix opts)) \/
    (network = "test" /\
     has_prefix (Js.toLowerCase address) (Bech32Opts.testNetPrefix opts))))
  /\
  (limit < Js.length address ->
   bech32Validator network address opts (Some limit) = Returns false)
  /\
  (isBech32Address address opts lengthLimit = Returns true <->
   bech32Validator "main" address opts lengthLimit = Returns true \/
   bech32Validator "test" address opts lengthLimit = Returns true).
Proof.
  intros Hl.
  assert (Hc : ceiling (Some limit) = limit)
    by (simpl; destruct (Z.eqb_spec limit 0); [contradiction | reflexivity]).
  assert (Hdec : forall d, Bech32.decode Bech32.bech32 address (Some limit) = Returns d <->
                           Js.length address <= limit /\
                           decodes_unbounded Bech32.bech32 address d)
    by (intros d; rewrite decode_iff_unbounded, Hc; reflexivity).
  split; [|split].
  - unfold bech32Validator. rewrite <- !startsWith_iff.
    assert (Ht : truthy (Some limit) = true)
      by (simpl; destruct (Z.eqb_spec limit 0); [contradiction | reflexivity]).
    rewrite Ht.
    destruct (Bech32.decode Bech32.bech32 address (Some limit)) as [decoded|e].
    2:{ split; [discriminate|]. intros (Hlen & [d Hd] & _).
        assert (H : Throws e = Returns d) by (apply Hdec; split; assumption).
        discriminate. }
    destruct (proj1 (Hdec decoded) eq_refl) as [Hlen Hd].
    destruct (String.eqb_spec network "main") as [Hm|Hm];
    destruct (String.eqb_spec network "test") as [Htst|Htst];
    try (subst; discriminate); simpl.
    + destruct (Js.startsWith _ (Bech32Opts.mainNetPrefix opts)) eqn:E.
      * split; [|reflexivity]. intros _. split; [exact Hlen|].
        split; [exists decoded; exact Hd | left; auto].
      * split; [discriminate|]. intros (_ & _ & [[_ H]|[H _]]); congruence.
    + destruct (Js.startsWith _ (Bech32Opts.testNetPrefix opts)) eqn:E.
      * split; [|reflexivity]. intros _. split; [exact Hlen|].
        split; [exists decoded; exact Hd | right; auto].
      * split; [discriminate|]. intros (_ & _ & [[H _]|[_ H]]); congruence.
    + split; [discriminate|]. intros (_ & _ & [[H _]|[H _]]); congruence.
  - intros Hlong. unfold bech32Validator.
    destruct (Bech32.decode Bech32.bech32 address (Some limit)) as [decoded|e] eqn:Hd;
      [|reflexivity].
    apply decode_within_ceiling in Hd. rewrite Hc in Hd. lia.
  - apply isBech32Address_iff.
Qed.

(** With limit 1023 the invoice is accepted for [main]. *)
Lemma bech32Validator_invoice_mode_witness :
  1023 <> 0 /\
  bech32Validator "main" Examples.invoice Examples.ln_opts (Some 1023) = Returns true.
Proof.
  assert (H : 1023 <> 0) by discriminate.
  split; [exact H|].
  apply (proj2 (proj1 (bech32Validator_invoice_mode
                         "main" Examples.invoice Examples.ln_opts 1023 None H))).
  split; [vm_compute; discriminate|]. split.
  - eexists. vm_compute. reflexivity.
  - left. split; [reflexivity|]. exists "1pzrux4t4q". reflexivity.
Defined.

(** C8 as stated fails at limit 0.  The invoice decodes and starts with the
    configured prefix, and it is rejected for its witness version; the segwit
    address, longer than 0 characters, is accepted. *)
Lemma bech32Validator_invoice_mode_counterexample :
  bech32Validator "main" Examples.invoice Examples.ln_opts (Some 0) = Returns false /\
  (exists decoded,
     Bech32.decode Bech32.bech32 Examples.invoice (Some 0) = Returns decoded) /\
  has_prefix (Js.toLowerCase Examples.invoice) (Bech32Opts.mainNetPrefix Examples.ln_opts) /\
  bech32Validator "main" Examples.segwit_address Examples.btc_opts (Some 0) = Returns true /\
  0 < Js.length Examples.segwit_address.
Proof.
  split; [vm_compute; reflexivity|]. split.
  - eexists. vm_compute. reflexivity.
  - split; [exists "1pzrux4t4q"; reflexivity|].
    split; vm_compute; reflexivity.
Qed.




(** C1: the validators that decode Bech32 let the exception of [fromWords]
    escape: [decode] alone stands inside their [try].  Each of the four
    throws on a candidate whose checksum is valid and whose words do not
    re-pack to whole bytes. *)
Theorem repacking_exception_escapes :
  bech32Validator "test" Examples.nonzero_padding_address Examples.btc_opts None
  = Throws "Non-zero padding" /\
  bech32mValidator "main" Examples.excess_padding_address Examples.btc_opts
  = Throws "Excess padding" /\
  zecBech32Validator "main" Examples.segwit_address Examples.zec_opts
  = Throws "Excess padding" /\
  (forall reverseF4Jumble : list Z -> outcome (list Z),
     zecBech32mValidator reverseF4Jumble "main" Examples.short_program_address
       Examples.zec_unified_opts
     = Throws "Excess padding").
Proof.
  split; [vm_compute; reflexivity|]. split; [vm_compute; reflexivity|].
  split; [vm_compute; reflexivity|]. intros f. vm_compute. reflexivity.
Qed.

(** ** [validatePrefix] and [base58Validator] *)

Lemma strict_neq_false (a b : option Z) : strict_neq a b = false <-> a = b.
Proof.
  destruct a as [x|], b as [y|]; simpl; split; try discriminate; auto.
  - intros H. apply negb_false_iff, Z.eqb_eq in H. congruence.
  - intros H. injection H as ->. rewrite Z.eqb_refl. reflexivity.
Qed.

(** The inner loop succeeds when it runs at least once and every byte from
    [byteIndex] on agrees. *)
Lemma validatePrefix_bytes_agree (currentPrefix buf : list Z) (n byteIndex : nat) :
  (byteIndex + n = List.length currentPrefix)%nat ->
  validatePrefix_bytes currentPrefix buf n byteIndex = true <->
  (0 < n)%nat /\
  forall j, (byteIndex <= j < List.length currentPrefix)%nat ->
            nth_error currentPrefix j = nth_error buf j.
Proof.
  revert byteIndex. induction n as [|n IH]; intros i Hi; simpl.
  - split; [discriminate | intros [H _]; lia].
  - destruct (strict_neq (nth_error currentPrefix i) (nth_error buf i)) eqn:Hneq.
    + split; [discriminate|]. intros [_ H].
      assert (E : nth_error currentPrefix i = nth_error buf i) by (apply H; lia).
      apply strict_neq_false in E. congruence.
    + apply strict_neq_false in Hneq.
      destruct (Nat.eqb_spec i (List.length currentPrefix - 1)) as [Hlast|Hlast].
      * split; [|reflexivity]. intros _. split; [lia|].
        intros j Hj. replace j with i by lia. exact Hneq.
      * rewrite IH by lia. split.
        -- intros [_ H]. split; [lia|]. intros j Hj.
           destruct (Nat.eq_dec j i) as [->|Hji]; [exact Hneq | apply H; lia].
        -- intros [_ H]. split; [lia|]. intros j Hj. apply H. lia.
Qed.

Lemma agree_starts_with (currentPrefix buf : list Z) :
  (forall j, (j < List.length currentPrefix)%nat ->
             nth_error currentPrefix j = nth_error buf j) <->
  starts_with buf currentPrefix.
Proof.
  unfold starts_with. revert buf.
  induction currentPrefix as [|c cs IH]; intros buf; simpl.
  - split; [intros _; exists buf; reflexivity | intros _ j Hj; lia].
  - split.
    + intros H. destruct buf as [|b bs].
      * specialize (H 0%nat ltac:(lia)). discriminate.
      * pose proof (H 0%nat ltac:(lia)) as H0. simpl in H0. injection H0 as ->.
        destruct (proj1 (IH bs)) as [rest ->].
        -- intros j Hj. apply (H (S j)). lia.
        -- exists rest. reflexivity.
    + intros [rest ->] j Hj. destruct j as [|j]; [reflexivity|]. simpl.
      apply (proj2 (IH (cs ++ rest)%list)); [exists rest; reflexivity | lia].
Qed.

(** One alternative matches when it has a byte and [buf] starts with it. *)
Lemma validatePrefix_bytes_iff (currentPrefix buf : list Z) :
  validatePrefix_bytes currentPrefix buf (List.length currentPrefix) 0 = true <->
  currentPrefix <> [] /\ starts_with buf currentPrefix.
Proof.
  rewrite validatePrefix_bytes_agree by reflexivity. rewrite <- agree_starts_with.
  split.
  - intros [Hn H]. split.
    + intros ->. simpl in Hn. lia.
    + intros j Hj. apply H. lia.
  - intros [Hne H]. split.
    + destruct currentPrefix; [contradiction | simpl; lia].
    + intros j Hj. apply H. lia.
Qed.

(** A mismatch ends its alternative only: any later one may still match. *)
Lemma validatePrefix_iff (prefix : list (list Z)) (buf : list Z) :
  validatePrefix prefix buf = true <->
  exists alternative,
    In alternative prefix /\ alternative <> [] /\ starts_with buf alternative.
Proof.
  induction prefix as [|cur rest IH]; simpl.
  - split; [discriminate | intros (a & [] & _)].
  - destruct (validatePrefix_bytes cur buf (List.length cur) 0) eqn:Hcur.
    + split; [|reflexivity]. intros _. apply validatePrefix_bytes_iff in Hcur.
      exists cur. tauto.
    + rewrite IH. split.
      * intros (a & Hin & H). exists a. tauto.
      * intros (a & [<-|Hin] & H); [|exists a; tauto].
        apply validatePrefix_bytes_iff in H. congruence.
Qed.

Lemma selected_table_iff (opts : Base58Opts.t) (network : string) (table : list (list Z)) :
  (if String.eqb network "main" then Base58Opts.mainNetPrefix opts
   else if String.eqb network "test" then Base58Opts.testNetPrefix opts
   else if String.eqb network "regtest" then Base58Opts.regtestPrefix opts
   else None) = Some table <->
  configured_table opts network table.
Proof.
  unfold configured_table.
  destruct (String.eqb_spec network "main") as [Hm|Hm];
  [|destruct (String.eqb_spec network "test") as [Ht|Ht];
    [|destruct (String.eqb_spec network "regtest") as [Hr|Hr]]].
  - split; [auto|]. intros [[_ H]|[[H _]|[H _]]]; [exact H | subst; discriminate..].
  - split; [auto|]. intros [[H _]|[[_ H]|[H _]]]; [contradiction | exact H | subst; discriminate].
  - split; [auto|]. intros [[H _]|[[H _]|[_ H]]]; [contradiction.. | exact H].
  - split; [discriminate|]. intros [[H _]|[[H _]|[H _]]]; contradiction.
Qed.

(** [base58Validator] always returns: its whole body stands inside the [try]. *)
Lemma base58Validator_returns (bs58check_decode : string -> outcome (list Z))
  (network address : string) (opts : Base58Opts.t) :
  exists b, base58Validator bs58check_decode network address opts = Returns b.
Proof.
  unfold base58Validator.
  destruct (bs58check_decode address) as [buf|e]; simpl; [|eauto].
  destruct (negb _); simpl; [eauto|].
  destruct (if String.eqb network "main" then _ else _); simpl; eauto.
Qed.

(** C6, amended: [base58Validator] returns [false] when the decoding throws,
    and otherwise returns [true] exactly when the decoded length is the
    configured length, the network is [main], [test] or [regtest] with a
    configured prefix table, and the decoded bytes start with an alternative
    of that table that has at least one byte; an alternative that fails does
    not stop the others from being tried.  It never throws. *)
Theorem base58Validator_accepts_iff (bs58check_decode : string -> outcome (list Z))
  (network address : string) (opts : Base58Opts.t) :
  (base58Validator bs58check_decode network address opts = Returns true <->
   exists buf table alternative,
     bs58check_decode address = Returns buf /\
     Z.of_nat (List.length buf) = Base58Opts.bufferLength opts /\
     configured_table opts network table /\
     In alternative table /\ alternative <> [] /\ starts_with buf alternative)
  /\
  (forall e, bs58check_decode address = Throws e ->
             base58Validator bs58check_decode network address opts = Returns false)
  /\
  (exists b, base58Validator bs58check_decode network address opts = Returns b).
Proof.
  split; [|split].
  - unfold base58Validator.
    destruct (bs58check_decode address) as [buf|e]; simpl.
    2:{ split; [discriminate | intros (b & t & a & H & _); discriminate]. }
    destruct (Z.eqb_spec (Z.of_nat (List.length buf)) (Base58Opts.bufferLength opts))
      as [Hlen|Hlen]; simpl.
    2:{ split; [discriminate|]. intros (b & t & a & H & Hl & _).
        injection H as <-. contradiction. }
    pose proof (selected_table_iff opts network) as Hsel.
    destruct (if String.eqb network "main" then _ else _) as [table|]; simpl.
    + split.
      * intros H. injection H as H. apply validatePrefix_iff in H as (a & Hin & Hne & Hs).
        exists buf, table, a. repeat split; auto. apply Hsel. reflexivity.
      * intros (b & t & a & Hb & _ & Ht & H). injection Hb as <-.
        apply Hsel in Ht. injection Ht as <-. f_equal.
        apply validatePrefix_iff. exists a. exact H.
    + split; [discriminate|]. intros (b & t & a & _ & _ & Ht & _).
      apply Hsel in Ht. discriminate.
  - intros e H. unfold base58Validator. rewrite H. reflexivity.
  - apply base58Validator_returns.
Qed.

(** The Tron address is accepted under the configuration of the plugin, and a
    string that is not Base58Check is rejected. *)
Lemma base58Validator_accepts_iff_witness :
  base58Validator Bs58check.decode "main" Examples.tron_address Blackpay.base58Opts
  = Returns true /\
  base58Validator Bs58check.decode "main" Examples.segwit_address Blackpay.base58Opts
  = Returns false.
Proof.
  split.
  - apply (proj1 (base58Validator_accepts_iff
                    Bs58check.decode "main" Examples.tron_address Blackpay.base58Opts)).
    eexists. exists [[0x41]], [0x41].
    split; [vm_compute; reflexivity|]. split; [vm_compute; reflexivity|].
    split; [left; split; reflexivity|]. split; [left; reflexivity|].
    split; [discriminate|]. eexists. reflexivity.
  - eapply (proj1 (proj2 (base58Validator_accepts_iff
                            Bs58check.decode "main" Examples.segwit_address
                            Blackpay.base58Opts))).
    vm_compute. reflexivity.
Defined.

(** C6 as stated fails: the decoded bytes of the Tron address have the
    configured length and start with the alternative of no bytes, and the
    address is rejected. *)
Lemma base58Validator_empty_alternative_counterexample :
  base58Validator Bs58check.decode "main" Examples.tron_address
    Examples.empty_alternative_opts = Returns false /\
  exists buf,
    Bs58check.decode Examples.tron_address = Returns buf /\
    Z.of_nat (List.length buf) = Base58Opts.bufferLength Examples.empty_alternative_opts /\
    configured_table Examples.empty_alternative_opts "main" [[]] /\
    In ([] : list Z) [[]] /\ starts_with buf [].
Proof.
  split; [vm_compute; reflexivity|].
  eexists. split; [vm_compute; reflexivity|]. split; [vm_compute; reflexivity|].
  split; [left; split; reflexivity|]. split; [left; reflexivity|].
  eexists. reflexivity.
Qed.

(** ** [xmrValidator] *)

Lemma startsWith_any (s a b c : string) :
  Js.startsWith s a || Js.startsWith s b || Js.startsWith s c = true <->
  exists p, In p [a; b; c] /\ has_prefix s p.
Proof.
  rewrite !orb_true_iff, !startsWith_iff. simpl. split.
  - intros [[H|H]|H]; eauto 6.
  - intros (p & [<-|[<-|[<-|[]]]] & H); auto.
Qed.

Lemma configured_xmr_prefix_iff (opts : XmrOpts.t) (network decoded : string) :
  configured_xmr_prefix opts network decoded <->
  (network = "main" /\
   Js.startsWith decoded (XmrOpts.mainNetPublicAddrPrefix opts)
   || Js.startsWith decoded (XmrOpts.mainNetIntegratedAddrPrefix opts)
   || Js.startsWith decoded (XmrOpts.mainNetSubAddrPrefix opts) = true) \/
  (network = "test" /\
   Js.startsWith decoded (XmrOpts.testNetPublicAddrPrefix opts)
   || Js.startsWith decoded (XmrOpts.testNetIntegratedAddrPrefix opts)
   || Js.startsWith decoded (XmrOpts.testNetSubAddrPrefix opts) = true).
Proof. unfold configured_xmr_prefix. rewrite !startsWith_any. reflexivity. Qed.

(** [hexToBin] returns [null] exactly on an odd number of digits. *)
Lemma hexToBin_None (hex : string) :
  hexToBin hex = None <-> Js.length hex mod 2 <> 0.
Proof.
  unfold hexToBin. destruct (Z.eqb_spec (Js.length hex mod 2) 0) as [E|E]; simpl.
  - split; [discriminate | contradiction].
  - split; auto.
Qed.

Lemma checksum_is_iff (keccak256 : list Z -> list Z) (addrChecksum : string)
  (payload : list Z) :
  checksum_is addrChecksum (keccak256Checksum keccak256 (Some payload)) = true <->
  addrChecksum = first_chars 8 (Js.toHex (keccak256 payload)).
Proof. simpl. rewrite substring0_first_chars. apply String.eqb_eq. Qed.

(** [xmrValidator] always returns: its whole body stands inside the [try]. *)
Lemma xmrValidator_returns (cnBase58_decode : string -> outcome string)
  (keccak256 : list Z -> list Z) (network address : string) (opts : XmrOpts.t) :
  exists b, xmrValidator cnBase58_decode keccak256 network address opts = Returns b.
Proof.
  unfold xmrValidator.
  destruct (cnBase58_decode address) as [decoded|e]; simpl; [|eauto].
  destruct (_ && _); simpl; [eauto|]. destruct (_ && _); simpl; eauto.
Qed.

(** C7, amended: [xmrValidator] splits the decoded string of digits into the
    payload (all but the last 8 digits) and the checksum (the last 8), and
    returns [true] exactly when the network is [main] or [test], the decoded
    string, payload and checksum together, starts with one of the three
    configured prefixes of the network, the payload has an even number of
    digits, and the checksum is the first 8 digits of the Keccak-256 of the
    payload bytes.  For a payload of odd length no checksum is computed and
    the candidate is rejected; a decoding that throws is a rejection. *)
Theorem xmrValidator_accepts_iff (cnBase58_decode : string -> outcome string)
  (keccak256 : list Z -> list Z) (network address : string) (opts : XmrOpts.t) :
  (xmrValidator cnBase58_decode keccak256 network address opts = Returns true <->
   exists decoded payload,
     cnBase58_decode address = Returns decoded /\
     hexToBin (all_but_last 8 decoded) = Some payload /\
     last_chars 8 decoded = first_chars 8 (Js.toHex (keccak256 payload)) /\
     configured_xmr_prefix opts network decoded)
  /\
  (forall decoded,
     cnBase58_decode address = Returns decoded ->
     Js.length (all_but_last 8 decoded) mod 2 <> 0 ->
     keccak256Checksum keccak256 (hexToBin (all_but_last 8 decoded)) = None /\
     xmrValidator cnBase58_decode keccak256 network address opts = Returns false)
  /\
  (forall e, cnBase58_decode address = Throws e ->
             xmrValidator cnBase58_decode keccak256 network address opts = Returns false).
Proof.
  assert (Hslice : forall d, Js.slice d 0 (-8) = all_but_last 8 d)
    by (intros d; apply (slice_all_but_last d 8); lia).
  assert (Hlast : forall d, Js.slice_from d (-8) = last_chars 8 d)
    by (intros d; apply (slice_from_last_chars d 8); lia).
  unfold xmrValidator. split; [|split].
  - destruct (cnBase58_decode address) as [decoded|e]; simpl.
    2:{ split; [discriminate | intros (d & p & H & _); discriminate]. }
    rewrite Hslice, Hlast.
    pose proof (configured_xmr_prefix_iff opts network decoded) as Hcfg.
    set (m := Js.startsWith decoded (XmrOpts.mainNetPublicAddrPrefix opts) || _ || _) in *.
    set (t := Js.startsWith decoded (XmrOpts.testNetPublicAddrPrefix opts) || _ || _) in *.
    destruct (hexToBin (all_but_last 8 decoded)) as [payload|] eqn:Hbin.
    2:{ simpl. rewrite !andb_false_r. simpl.
        split; [discriminate | intros (d & p & Hd & Hp & _)].
        injection Hd as <-. congruence. }
    pose proof (checksum_is_iff keccak256 (last_chars 8 decoded) payload) as Hsum.
    destruct (checksum_is _ _).
    + rewrite !andb_true_r. split.
      * intros H. exists decoded, payload. split; [reflexivity|]. split; [exact Hbin|].
        split; [apply Hsum; reflexivity|]. apply Hcfg.
        destruct (String.eqb_spec network "main") as [Hm|Hm];
        destruct (String.eqb_spec network "test") as [Ht|Ht];
        try (subst; discriminate);
        destruct m; destruct t; simpl in H; try discriminate; auto.
      * intros (d & p & Hd & _ & _ & Hp). injection Hd as <-.
        apply Hcfg in Hp. destruct Hp as [[-> ->] | [-> ->]]; [reflexivity|].
        simpl. destruct m; reflexivity.
    + rewrite !andb_false_r. simpl. split; [discriminate|].
      intros (d & p & Hd & Hp & Hs & _). injection Hd as <-.
      rewrite Hbin in Hp. injection Hp as <-. apply Hsum in Hs. discriminate.
  - intros decoded Hd Hodd. rewrite Hd. simpl. rewrite Hslice.
    apply hexToBin_None in Hodd. rewrite Hodd. simpl.
    rewrite !andb_false_r. auto.
  - intros e ->. reflexivity.
Qed.

(** The donation address of the Monero project is accepted for [main].  A
    decoded string of 17 digits has a payload of 9: no checksum is computed
    and the candidate is rejected, whatever the hash. *)
Lemma xmrValidator_accepts_iff_witness :
  xmrValidator CnBase58.decode Keccak.keccak256 "main" Examples.monero_address
    Examples.xmr_opts = Returns true /\
  keccak256Checksum Keccak.keccak256 (hexToBin (all_but_last 8 "12345678901234567")) = None /\
  xmrValidator Examples.odd_decode Keccak.keccak256 "main" Examples.monero_address
    Examples.xmr_opts = Returns false.
Proof.
  split.
  - apply (proj2 (proj1 (xmrValidator_accepts_iff
                           CnBase58.decode Keccak.keccak256 "main"
                           Examples.monero_address Examples.xmr_opts))).
    eexists. eexists.
    split; [vm_compute; reflexivity|]. split; [vm_compute; reflexivity|].
    split; [vm_compute; reflexivity|].
    left. split; [reflexivity|]. exists "12". split; [left; reflexivity|].
    eexists. reflexivity.
  - apply (proj1 (proj2 (xmrValidator_accepts_iff
                           Examples.odd_decode Keccak.keccak256 "main"
                           Examples.monero_address Examples.xmr_opts))
             "12345678901234567").
    + reflexivity.
    + vm_compute. discriminate.
Defined.

(** C7 as stated fails: the six characters decode to the eight digits of a
    checksum; the payload has no digit and starts with none of the configured
    prefixes; the checksum of no bytes is right, and the candidate is
    accepted, because the decoded string starts with the prefix c5. *)
Lemma xmrValidator_prefix_counterexample :
  xmrValidator CnBase58.decode Keccak.keccak256 "main" Examples.checksum_only_address
    Examples.xmr_long_prefix_opts = Returns true /\
  CnBase58.decode Examples.checksum_only_address = Returns "c5d24601" /\
  all_but_last 8 "c5d24601" = "" /\
  ~ configured_xmr_prefix Examples.xmr_long_prefix_opts "main" (all_but_last 8 "c5d24601").
Proof.
  split; [vm_compute; reflexivity|]. split; [vm_compute; reflexivity|].
  split; [vm_compute; reflexivity|].
  intros H. apply configured_xmr_prefix_iff in H.
  destruct H as [[_ H]|[H _]]; [vm_compute in H | ]; discriminate.
Qed.

(** ** [zecBech32mValidator] *)

(** What [confirmPadding] compares: the mask has 32 digits, and the padded
    prefix is cut to as many. *)
Lemma confirmPadding_iff (unjumbled : list Z) (humanReadiblePadding : string) :
  confirmPadding unjumbled humanReadiblePadding = true <->
  last_chars 32 (Js.toHex unjumbled) =
  first_chars 32 (pad_end 32 (Js.toHex (Js.bytes_of_string humanReadiblePadding))).
Proof.
  unfold confirmPadding. rewrite String.eqb_eq.
  rewrite (slice_from_last_chars _ 32) by lia.
  rewrite substring0_first_chars.
  replace (first_chars (Z.to_nat (Js.length paddingMask))
             (Js.toHex (Js.bytes_of_string humanReadiblePadding) ++ paddingMask))
    with (first_chars 32 (pad_end 32 (Js.toHex (Js.bytes_of_string humanReadiblePadding)))).
  - reflexivity.
  - unfold first_chars, pad_end. f_equal.
    rewrite !chars_append, list_ascii_of_string_of_list_ascii, <- chars_length.
    symmetry. apply (firstn_padding 32).
Qed.

(** C2, amended: [zecBech32mValidator] returns [true] exactly when the
    candidate has at most 512 characters and decodes under Bech32m, its words
    re-pack to bytes, the bytes are de-jumbled, the network is [main] or
    [test], and the hexadecimal digits of the configured prefix of the
    network, right-padded with the digit 0 and cut to exactly 32 digits, are
    the last 32 digits (the last 16 bytes) of the de-jumbled payload. *)
Theorem zecBech32mValidator_accepts_iff (reverseF4Jumble : list Z -> outcome (list Z))
  (network address : string) (opts : Bech32Opts.t) :
  zecBech32mValidator reverseF4Jumble network address opts = Returns true <->
  exists decoded data res,
    Js.length address <= 512 /\
    decodes_unbounded Bech32.bech32m address decoded /\
    Bech32.fromWords (Bech32.words decoded) = Returns data /\
    reverseF4Jumble data = Returns res /\
    padding_confirmed 32 opts network res.
Proof.
  unfold zecBech32mValidator, padding_confirmed.
  destruct (Bech32.decode Bech32.bech32m address (Some 512)) as [decoded|e] eqn:Hd.
  2:{ split; [discriminate|]. intros (d & x & r & Hlen & Hu & _).
      assert (H : Bech32.decode Bech32.bech32m address (Some 512) = Returns d)
        by (apply decode_iff_unbounded; split; assumption).
      congruence. }
  apply decode_iff_unbounded in Hd as [Hlen Hd]. simpl in Hlen.
  rewrite bind_Returns. setoid_rewrite bind_Returns.
  setoid_rewrite <- confirmPadding_iff.
  split.
  - intros (data & Hdata & res & Hres & Hk). exists decoded, data, res.
    split; [exact Hlen|]. split; [exact Hd|]. split; [exact Hdata|]. split; [exact Hres|].
    destruct (String.eqb_spec network "main") as [Hm|Hm];
    destruct (String.eqb_spec network "test") as [Ht|Ht];
    try (subst; discriminate); simpl in Hk.
    + destruct (confirmPadding res (Bech32Opts.mainNetPrefix opts)); [auto | discriminate].
    + destruct (confirmPadding res (Bech32Opts.testNetPrefix opts)); [auto | discriminate].
  - intros (d & data & res & _ & Hu & Hdata & Hres & Hp).
    unfold decodes_unbounded in Hu, Hd. rewrite Hd in Hu. injection Hu as <-.
    exists data. split; [exact Hdata|]. exists res. split; [exact Hres|].
    destruct Hp as [[-> ->] | [-> ->]]; reflexivity.
Qed.

(** The unified address of the examples is accepted for [main]. *)
Lemma zecBech32mValidator_accepts_iff_witness :
  zecBech32mValidator F4Jumble.f4Unjumble "main" Examples.unified_address
    Examples.zec_unified_opts = Returns true.
Proof.
  apply (proj2 (zecBech32mValidator_accepts_iff
                  F4Jumble.f4Unjumble "main" Examples.unified_address
                  Examples.zec_unified_opts)).
  eexists. eexists. exists Examples.unified_payload.
  split; [vm_compute; discriminate|].
  split; [vm_compute; reflexivity|]. split; [vm_compute; reflexivity|].
  split; [vm_compute; reflexivity|]. left. split; vm_compute; reflexivity.
Defined.

(** C2 as stated fails: the unified address decodes and de-jumbles to a
    payload that ends with [u] and fifteen zero bytes, and it is accepted;
    the digits of [u] padded to 34 are not the last 32 digits of the
    payload. *)
Lemma zecBech32mValidator_width_counterexample :
  zecBech32mValidator F4Jumble.f4Unjumble "main" Examples.unified_address
    Examples.zec_unified_opts = Returns true /\
  Js.length Examples.unified_address <= 512 /\
  (exists decoded data,
     decodes_unbounded Bech32.bech32m Examples.unified_address decoded /\
     Bech32.fromWords (Bech32.words decoded) = Returns data /\
     F4Jumble.f4Unjumble data = Returns Examples.unified_payload) /\
  ~ padding_confirmed 34 Examples.zec_unified_opts "main" Examples.unified_payload.
Proof.
  split; [vm_compute; reflexivity|]. split; [vm_compute; discriminate|]. split.
  - eexists. eexists. split; [vm_compute; reflexivity|].
    split; [vm_compute; reflexivity|]. vm_compute. reflexivity.
  - intros [[_ H]|[H _]]; [vm_compute in H | ]; discriminate.
Qed.

(** ** Regular expressions: [test] decides [Matches] *)

Module RegexFacts.

Import Regex.

Create HintDb regex.
#[local] Hint Constructors Matches : regex.

Lemma Matches_Eps (w : list ascii) : Matches Eps w <-> w = [].
Proof. split; [intros H; inversion H; reflexivity | intros ->; constructor]. Qed.

Lemma Matches_Class (p : ascii -> bool) (w : list ascii) :
  Matches (Class p) w <-> exists c, w = [c] /\ p c = true.
Proof.
  split.
  - intros H. inversion H; subst. eauto.
  - intros (c & -> & Hc). auto with regex.
Qed.

Lemma Matches_Cat (r s : regex) (w : list ascii) :
  Matches (Cat r s) w <-> exists u v, w = (u ++ v)%list /\ Matches r u /\ Matches s v.
Proof.
  split.
  - intros H. inversion H; subst. eauto.
  - intros (u & v & -> & Hu & Hv). auto with regex.
Qed.

Lemma Matches_Alt (r s : regex) (w : list ascii) :
  Matches (Alt r s) w <-> Matches r w \/ Matches s w.
Proof.
  split.
  - intros H. inversion H; subst; auto.
  - intros [H|H]; auto with regex.
Qed.

Lemma nullable_iff (r : regex) : nullable r = true <-> Matches r [].
Proof.
  induction r as [| |p|r IHr s IHs|r IHr s IHs|r IHr]; simpl.
  - split; [discriminate | intros H; inversion H].
  - split; auto with regex.
  - split; [discriminate | intros H; inversion H].
  - rewrite andb_true_iff, IHr, IHs, Matches_Cat. split.
    + intros [Hr Hs]. exists [], []. auto.
    + intros (u & v & E & Hu & Hv). symmetry in E. apply app_eq_nil in E as [-> ->]. auto.
  - rewrite orb_true_iff, IHr, IHs, Matches_Alt. reflexivity.
  - split; auto with regex.
Qed.

Lemma cat_iff (r s : regex) (w : list ascii) : Matches (cat r s) w <-> Matches (Cat r s) w.
Proof.
  destruct r; simpl; try reflexivity.
  - rewrite Matches_Cat. split; [intros H; inversion H|].
    intros (u & v & _ & H & _). inversion H.
  - rewrite Matches_Cat. split.
    + intros H. exists [], w. auto with regex.
    + intros (u & v & -> & Hu & Hv). apply Matches_Eps in Hu. subst u. exact Hv.
Qed.

Lemma alt_iff (r s : regex) (w : list ascii) : Matches (alt r s) w <-> Matches (Alt r s) w.
Proof.
  rewrite Matches_Alt.
  destruct r, s; simpl; rewrite ?Matches_Alt;
    split; auto; intros [H|H]; auto; inversion H.
Qed.

(** A non-empty match of [r*] starts with a non-empty match of [r]. *)
Lemma Matches_Star_cons (r : regex) (c : ascii) (w : list ascii) :
  Matches (Star r) (c :: w) ->
  exists u v, w = (u ++ v)%list /\ Matches r (c :: u) /\ Matches (Star r) v.
Proof.
  intros H. remember (Star r) as sr eqn:Esr. remember (c :: w) as cw eqn:Ecw.
  induction H as [| | | | | |r' u v Hu _ Hv IHv]; try discriminate.
  injection Esr as ->. destruct u as [|c' u'].
  - simpl in Ecw. apply IHv; auto.
  - simpl in Ecw. injection Ecw as -> <-. eauto.
Qed.

Lemma deriv_iff (c : ascii) (r : regex) (w : list ascii) :
  Matches (deriv c r) w <-> Matches r (c :: w).
Proof.
  revert w. induction r as [| |p|r IHr s IHs|r IHr s IHs|r IHr]; intros w; simpl.
  - split; intros H; inversion H.
  - split; intros H; inversion H.
  - destruct (p c) eqn:Hp.
    + rewrite Matches_Eps. split.
      * intros ->. auto with regex.
      * intros H. inversion H. reflexivity.
    + split; intros H; inversion H. congruence.
  - assert (Hcat : Matches (cat (deriv c r) s) w <->
                   exists u v, w = (u ++ v)%list /\ Matches r (c :: u) /\ Matches s v).
    { rewrite cat_iff, Matches_Cat. split; intros (u & v & E & Hu & Hv);
        exists u, v; repeat split; auto; apply IHr; exact Hu. }
    rewrite Matches_Cat.
    destruct (nullable r) eqn:Hn.
    + rewrite alt_iff, Matches_Alt, Hcat, IHs. split.
      * intros [(u & v & -> & Hu & Hv) | Hs].
        -- exists (c :: u), v. auto.
        -- exists [], (c :: w). repeat split; auto. apply nullable_iff. exact Hn.
      * intros (u & v & E & Hu & Hv). destruct u as [|c' u'].
        -- right. simpl in E. subst v. exact Hv.
        -- left. simpl in E. injection E as <- ->. eauto.
    + rewrite Hcat. split.
      * intros (u & v & -> & Hu & Hv). exists (c :: u), v. auto.
      * intros (u & v & E & Hu & Hv). destruct u as [|c' u'].
        -- apply nullable_iff in Hu. congruence.
        -- simpl in E. injection E as <- ->. eauto.
  - rewrite alt_iff, !Matches_Alt, IHr, IHs. reflexivity.
  - rewrite cat_iff, Matches_Cat. split.
    + intros (u & v & -> & Hu & Hv). apply IHr in Hu.
      change (c :: u ++ v)%list with ((c :: u) ++ v)%list. auto with regex.
    + intros H. apply Matches_Star_cons in H as (u & v & -> & Hu & Hv).
      exists u, v. repeat split; auto. apply IHr. exact Hu.
Qed.

Lemma matchb_iff (r : regex) (w : list ascii) : matchb r w = true <-> Matches r w.
Proof.
  revert r. induction w as [|c w IH]; intros r; simpl.
  - apply nullable_iff.
  - rewrite IH. apply deriv_iff.
Qed.

End RegexFacts.

(** ** The pattern of [validate] matches the e-mail addresses *)

Module EmailFacts.

Import Regex RegexFacts Blackpay Email.

Lemma Matches_Star_Class (p : ascii -> bool) (w : list ascii) :
  Matches (Star (Class p)) w <-> Forall (fun c => p c = true) w.
Proof.
  split.
  - intros H. remember (Star (Class p)) as r eqn:Er.
    induction H as [| | | | | |r' u v Hu _ Hv IHv]; try discriminate.
    + constructor.
    + injection Er as ->. apply Matches_Class in Hu as (c & -> & Hc).
      constructor; auto.
  - induction 1 as [|c w Hc _ IH]; [constructor|].
    change (c :: w) with ([c] ++ w)%list. constructor; [constructor; exact Hc | exact IH].
Qed.

Lemma Matches_Plus_Class (p : ascii -> bool) (w : list ascii) :
  Matches (Plus (Class p)) w <-> w <> [] /\ Forall (fun c => p c = true) w.
Proof.
  unfold Plus. rewrite Matches_Cat. split.
  - intros (u & v & -> & Hu & Hv). apply Matches_Class in Hu as (c & -> & Hc).
    apply Matches_Star_Class in Hv. split; [discriminate | constructor; auto].
  - intros [Hne H]. destruct w as [|c w]; [contradiction|]. inversion H; subst.
    exists [c], w. repeat split; [apply Matches_Class; eauto | apply Matches_Star_Class; auto].
Qed.

Lemma Matches_Star (r : regex) (w : list ascii) :
  Matches (Star r) w <-> exists ws, w = List.concat ws /\ Forall (Matches r) ws.
Proof.
  split.
  - intros H. remember (Star r) as sr eqn:Er.
    induction H as [| | | | | |r' u v Hu _ Hv IHv]; try discriminate.
    + exists []. split; [reflexivity | constructor].
    + injection Er as ->. destruct (IHv eq_refl) as (ws & -> & Hws).
      exists (u :: ws). split; [reflexivity | constructor; auto].
  - intros (ws & -> & Hws). induction Hws as [|u ws Hu _ IH]; simpl; constructor; auto.
Qed.

Lemma Matches_UpTo_Class (n : nat) (p : ascii -> bool) (w : list ascii) :
  Matches (UpTo n (Class p)) w <->
  (List.length w <= n)%nat /\ Forall (fun c => p c = true) w.
Proof.
  revert w. induction n as [|n IH]; intros w; simpl.
  - rewrite Matches_Eps. split.
    + intros ->. split; [simpl; lia | constructor].
    + intros [Hl _]. destruct w; [reflexivity | simpl in Hl; lia].
  - unfold Opt. rewrite Matches_Alt, Matches_Cat, Matches_Eps. split.
    + intros [(u & v & -> & Hu & Hv) | ->].
      * apply Matches_Class in Hu as (c & -> & Hc). apply IH in Hv as [Hl Hv].
        split; [simpl; lia | constructor; auto].
      * split; [simpl; lia | constructor].
    + intros [Hl H]. destruct w as [|c w]; [right; reflexivity | left].
      inversion H; subst. exists [c], w.
      repeat split; [apply Matches_Class; eauto | apply IH; split; [simpl in Hl; lia | auto]].
Qed.

Lemma alnum_alnum_hyphen (c : ascii) : alnum c = true -> alnum_hyphen c = true.
Proof. unfold alnum_hyphen. intros ->. reflexivity. Qed.

Lemma Matches_label (w : list ascii) : Matches label w <-> is_label w.
Proof.
  unfold label, Opt, is_label.
  rewrite Matches_Cat. setoid_rewrite Matches_Alt. setoid_rewrite Matches_Class.
  setoid_rewrite Matches_Eps. setoid_rewrite Matches_Cat.
  setoid_rewrite Matches_UpTo_Class. setoid_rewrite Matches_Class. split.
  - intros (u & v & -> & (c & -> & Hc) & [(mid & l & -> & [Hlen Hmid] & (d & -> & Hd)) | ->]).
    + split; [simpl; rewrite length_app; simpl; lia|].
      split.
      * constructor; [apply alnum_alnum_hyphen; exact Hc|].
        apply Forall_app. split; [exact Hmid|].
        constructor; [apply alnum_alnum_hyphen; exact Hd | constructor].
      * split; [exists c, (mid ++ [d])%list; auto|].
        exists (c :: mid), d. auto.
    + split; [simpl; lia|]. split.
      * constructor; [apply alnum_alnum_hyphen; exact Hc | constructor].
      * split; [exists c, []; auto | exists [], c; auto].
  - intros (Hlen & Hall & (c & rest & -> & Hc) & (front & d & E & Hd)).
    exists [c], rest. split; [reflexivity|]. split; [eauto|].
    destruct front as [|c' mid].
    + right. simpl in E. injection E as _ ->. reflexivity.
    + left. simpl in E. injection E as _ ->. exists mid, [d].
      split; [reflexivity|]. split; [|eauto].
      inversion Hall as [|? ? _ Hrest]; subst. apply Forall_app in Hrest as [Hmid _].
      split; [|exact Hmid]. simpl in Hlen. rewrite length_app in Hlen. simpl in Hlen. lia.
Qed.

Lemma one_of_single (d c : ascii) : one_of (String d EmptyString) c = true <-> c = d.
Proof.
  unfold one_of. simpl. rewrite orb_false_r. apply Ascii.eqb_eq.
Qed.

Lemma Matches_dot_labels (w : list ascii) :
  Matches (Star (Cat (Class (one_of ".")) label)) w <->
  exists more, w = flat_map (fun l => "."%char :: l) more /\ Forall is_label more.
Proof.
  rewrite Matches_Star. split.
  - intros (ws & -> & Hws). induction Hws as [|u ws Hu _ (more & E & Hmore)].
    + exists []. split; [reflexivity | constructor].
    + apply Matches_Cat in Hu as (a & l & -> & Ha & Hl).
      apply Matches_Class in Ha as (c & -> & Hc). apply one_of_single in Hc. subst c.
      apply Matches_label in Hl. exists (l :: more).
      split; [simpl; rewrite E; reflexivity | constructor; auto].
  - intros (more & -> & Hmore). induction Hmore as [|l more Hl _ (ws & E & Hws)].
    + exists []. split; [reflexivity | constructor].
    + exists (("."%char :: l) :: ws). split; [simpl; rewrite E; reflexivity|].
      constructor; [|exact Hws].
      apply Matches_Cat. exists ["."%char], l. split; [reflexivity|].
      split; [apply Matches_Class; exists "."%char; split; [reflexivity | reflexivity]|].
      apply Matches_label. exact Hl.
Qed.

(** The pattern of [validate] matches the e-mail addresses. *)
Lemma Matches_re (w : list ascii) : Matches re w <-> is_email w.
Proof.
  unfold re, is_email. rewrite Matches_Cat.
  setoid_rewrite Matches_Plus_Class. setoid_rewrite Matches_Cat.
  setoid_rewrite Matches_Class. setoid_rewrite Matches_Cat.
  setoid_rewrite Matches_label. setoid_rewrite Matches_dot_labels.
  split.
  - intros (loc & v & -> & [Hne Hloc] & at_ & v' & -> & (c & -> & Hc)
            & first & tl & -> & Hfirst & more & -> & Hmore).
    apply one_of_single in Hc. subst c.
    exists loc, first, more. split; [reflexivity|]. split; [exact Hne|].
    split; [exact Hloc|]. split; [exact Hfirst | exact Hmore].
  - intros (loc & first & more & -> & Hne & Hloc & Hfirst & Hmore).
    exists loc, ("@"%char :: first ++ flat_map (fun l => "."%char :: l) more)%list.
    split; [reflexivity|]. split; [auto|].
    exists ["@"%char], (first ++ flat_map (fun l => "."%char :: l) more)%list.
    split; [reflexivity|]. split; [exists "@"%char; split; reflexivity|].
    exists first, (flat_map (fun l => "."%char :: l) more).
    split; [reflexivity|]. split; [exact Hfirst|]. exists more. auto.
Qed.

End EmailFacts.

(** ** [Blackpay.validate] *)

(** C9: [validate] of the Blackpay plugin returns [true] exactly when the
    address matches the e-mail pattern: a non-empty local part, an [@] and
    dot-separated labels.  The network, a string, [null] or [undefined], has
    no part in the result, and no decoder, checksum or prefix table has
    either. *)
Theorem validate_is_email_test (network network' : Blackpay.network) (address : string) :
  Blackpay.validate network address = Blackpay.validate network' address /\
  (Blackpay.validate network address = true <->
   Regex.Matches Blackpay.re (chars address)) /\
  (Blackpay.validate network address = true <-> Email.is_email (chars address)).
Proof.
  split; [reflexivity|].
  assert (H : Blackpay.validate network address = true <->
              Regex.Matches Blackpay.re (chars address))
    by apply RegexFacts.matchb_iff.
  split; [exact H|]. rewrite H. apply EmailFacts.Matches_re.
Qed.

(** The plugin accepts an e-mail address, which is no Base58Check string, and
    rejects the Tron address its own Base58Check configuration is for. *)
Example validate_examples :
  Blackpay.validate Blackpay.Null "alice@example.com" = true /\
  Blackpay.validate (Blackpay.Name "main") Examples.tron_address = false /\
  base58Validator Bs58check.decode "main" "alice@example.com" Blackpay.base58Opts
  = Returns false.
Proof. split; [|split]; vm_compute; reflexivity. Qed.

(** ** Further properties of the validators *)

(** X1: when an exception escapes.  [bech32mValidator], [bech32Validator] and
    [zecBech32Validator] throw exactly when the candidate decodes, passes the
    witness-version test where there is one, and [fromWords] throws on the
    words to re-pack; [bech32Validator] never throws in invoice mode.
    [zecBech32mValidator] throws exactly when the candidate decodes and
    [fromWords] or the de-jumbling throws. *)
Theorem exceptions_escape_iff (network address : string) (opts : Bech32Opts.t)
  (limit : option Z) (reverseF4Jumble : list Z -> outcome (list Z)) (e : string) :
  (bech32mValidator network address opts = Throws e <->
   exists decoded version,
     Bech32.decode Bech32.bech32m address None = Returns decoded /\
     nth_error (Bech32.words decoded) 0 = Some version /\
     1 <= version <= 16 /\
     Bech32.fromWords (skipn 1 (Bech32.words decoded)) = Throws e)
  /\
  (bech32Validator network address opts limit = Throws e <->
   exists decoded,
     truthy limit = false /\
     Bech32.decode Bech32.bech32 address limit = Returns decoded /\
     nth_error (Bech32.words decoded) 0 = Some 0 /\
     Bech32.fromWords (skipn 1 (Bech32.words decoded)) = Throws e)
  /\
  (zecBech32Validator network address opts = Throws e <->
   exists decoded,
     Bech32.decode Bech32.bech32 address None = Returns decoded /\
     Bech32.fromWords (Bech32.words decoded) = Throws e)
  /\
  (zecBech32mValidator reverseF4Jumble network address opts = Throws e <->
   exists decoded,
     Bech32.decode Bech32.bech32m address (Some 512) = Returns decoded /\
     (Bech32.fromWords (Bech32.words decoded) = Throws e \/
      exists data,
        Bech32.fromWords (Bech32.words decoded) = Returns data /\
        reverseF4Jumble data = Throws e)).
Proof.
  split; [|split; [|split]].
  - unfold bech32mValidator.
    destruct (Bech32.decode Bech32.bech32m address None) as [decoded|e'].
    2:{ split; [discriminate | intros (d & v & H & _); discriminate]. }
    destruct (nth_error (Bech32.words decoded) 0) as [v|] eqn:Hv.
    + destruct ((v <? 1) || (v >? 16)) eqn:Hrange.
      * split; [discriminate|]. intros (d & v' & Hd & Hv' & Hr & _).
        injection Hd as <-. rewrite Hv in Hv'. injection Hv' as <-.
        apply orb_true_iff in Hrange. lia.
      * apply orb_false_iff in Hrange. rewrite bind_Throws. split.
        -- intros [H|(data & _ & H)].
           ++ exists decoded, v. repeat split; auto; lia.
           ++ destruct (_ || _); discriminate.
        -- intros (d & v' & Hd & _ & _ & H). injection Hd as <-. left. exact H.
    + split.
      * destruct (Bech32.words decoded) as [|w ws]; [|discriminate]. discriminate.
      * intros (d & v' & Hd & Hv' & _). injection Hd as <-. congruence.
  - unfold bech32Validator.
    destruct (Bech32.decode Bech32.bech32 address limit) as [decoded|e'].
    2:{ split; [discriminate | intros (d & _ & H & _); discriminate]. }
    destruct (truthy limit).
    + split; [|intros (d & H & _); discriminate].
      destruct (_ && _); [discriminate|]. destruct (_ && _); discriminate.
    + destruct (nth_error (Bech32.words decoded) 0) as [v|] eqn:Hv; unfold strict_neq.
      * destruct (Z.eqb_spec v 0) as [->|Hne]; cbn [negb].
        -- rewrite bind_Throws. split.
           ++ intros [H|(data & _ & H)]; [eauto 6|]. destruct (_ && _); discriminate.
           ++ intros (d & _ & Hd & _ & H). injection Hd as <-. left. exact H.
        -- split; [discriminate|]. intros (d & _ & Hd & Hv' & _).
           injection Hd as <-. congruence.
      * split; [discriminate|]. intros (d & _ & Hd & Hv' & _).
        injection Hd as <-. congruence.
  - unfold zecBech32Validator.
    destruct (Bech32.decode Bech32.bech32 address None) as [decoded|e'].
    2:{ split; [discriminate | intros (d & H & _); discriminate]. }
    rewrite bind_Throws. split.
    + intros [H|(data & _ & H)]; [eauto|].
      destruct (negb _); [discriminate|].
      destruct (_ && _); [discriminate|]. destruct (_ && _); discriminate.
    + intros (d & Hd & H). injection Hd as <-. left. exact H.
  - unfold zecBech32mValidator.
    destruct (Bech32.decode Bech32.bech32m address (Some 512)) as [decoded|e'].
    2:{ split; [discriminate | intros (d & H & _); discriminate]. }
    rewrite bind_Throws. setoid_rewrite bind_Throws. split.
    + intros [H|(data & Hdata & [H|(res & _ & H)])]; [eauto | eauto 6 |].
      destruct (_ && _); [discriminate|]. destruct (_ && _); discriminate.
    + intros (d & Hd & [H|(data & Hdata & H)]); injection Hd as <-; [auto|].
      right. exists data. auto.
Qed.

(** X2: [xmrValidator] never throws: for any decoder and hash, every call
    returns a boolean. *)
Theorem xmrValidator_total (cnBase58_decode : string -> outcome string)
  (keccak256 : list Z -> list Z) (network address : string) (opts : XmrOpts.t) :
  exists b, xmrValidator cnBase58_decode keccak256 network address opts = Returns b.
Proof. apply xmrValidator_returns. Qed.

(** X3: [validatePrefix] returns [true] exactly when the buffer starts with an
    alternative of the table that has at least one byte. *)
Theorem validatePrefix_spec (prefix : list (list Z)) (buf : list Z) :
  validatePrefix prefix buf = true <->
  exists alternative,
    In alternative prefix /\ alternative <> [] /\ starts_with buf alternative.
Proof. apply validatePrefix_iff. Qed.

(** X4: [confirmPadding] returns [true] exactly when the last 32 hexadecimal
    digits of the payload are the digits of the prefix, padded with 0 and cut
    to 32 digits. *)
Theorem confirmPadding_spec (unjumbled : list Z) (humanReadiblePadding : string) :
  confirmPadding unjumbled humanReadiblePadding = true <->
  last_chars 32 (Js.toHex unjumbled) =
  first_chars 32 (pad_end 32 (Js.toHex (Js.bytes_of_string humanReadiblePadding))).
Proof. apply confirmPadding_iff. Qed.

(** ** The methods of the Blackpay plugin *)

Lemma validate_iff_email (network : Blackpay.network) (address : string) :
  Blackpay.validate network address = true <-> Email.is_email (chars address).
Proof.
  unfold Blackpay.validate, Regex.test.
  rewrite RegexFacts.matchb_iff. apply EmailFacts.Matches_re.
Qed.

(** An address that [validate] accepts has an [@]. *)
Lemma validate_at (network : Blackpay.network) (address : string) :
  Blackpay.validate network address = true -> In "@"%char (chars address).
Proof.
  intros H. apply validate_iff_email in H as (l & f & m & -> & _).
  apply in_or_app. right. left. reflexivity.
Qed.

Lemma parseUrl_Returns (url_parse : string -> outcome Blackpay.UrlRecord)
  (network uri address : string) :
  Blackpay.parseUrl url_parse network uri = Returns address <->
  exists rec,
    url_parse uri = Returns rec /\
    Blackpay.or_else (Blackpay.path rec) (Blackpay.host rec) = Some address /\
    Email.is_email (chars address).
Proof.
  unfold Blackpay.parseUrl. destruct (url_parse uri) as [rec|e]; simpl.
  2:{ split; [discriminate | intros (r & H & _); discriminate]. }
  destruct (Blackpay.or_else (Blackpay.path rec) (Blackpay.host rec)) as [a|] eqn:Hor;
    simpl.
  2:{ split; [discriminate | intros (r & H & H' & _)]. injection H as <-. congruence. }
  pose proof (validate_iff_email (Blackpay.Name network) a) as Hv.
  destruct (String.eqb_spec a "") as [->|Hne]; simpl.
  - split; [discriminate|]. intros (r & H & H' & Hm). injection H as <-.
    rewrite Hor in H'. injection H' as <-. destruct Hm as (l & f & m & E & _).
    destruct l; discriminate.
  - destruct (Blackpay.validate (Blackpay.Name network) a); simpl.
    + split.
      * intros H. injection H as <-. exists rec.
        split; [reflexivity|]. split; [exact Hor|]. apply Hv. reflexivity.
      * intros (r & H & H' & _). injection H as <-. congruence.
    + split; [discriminate|]. intros (r & H & H' & Hm). injection H as <-.
      rewrite Hor in H'. injection H' as <-. apply Hv in Hm. discriminate.
Qed.

(** The [catch] of [parseUrl] replaces every exception by its own. *)
Lemma parseUrl_Throws (url_parse : string -> outcome Blackpay.UrlRecord)
  (network uri e : string) :
  Blackpay.parseUrl url_parse network uri = Throws e -> e = "Invalid address".
Proof.
  unfold Blackpay.parseUrl. destruct (url_parse uri) as [rec|e']; simpl.
  2:{ intros H. injection H as <-. reflexivity. }
  destruct (Blackpay.or_else _ _) as [a|]; simpl.
  - destruct (_ || _); simpl; [|discriminate]. intros H. injection H as <-. reflexivity.
  - intros H. injection H as <-. reflexivity.
Qed.

(** The second [validate], of [getAddressType], repeats the one [parseUrl]
    made. *)
Lemma getAddressType_Regular (url_parse : string -> outcome Blackpay.UrlRecord)
  (url network : string) :
  Blackpay.getAddressType url_parse url network
  = (address <- Blackpay.parseUrl url_parse network url ;; Returns (Some "Regular")).
Proof.
  unfold Blackpay.getAddressType.
  destruct (Blackpay.parseUrl url_parse network url) as [a|e] eqn:Hp; simpl; [|reflexivity].
  apply parseUrl_Returns in Hp as (r & _ & _ & Hm).
  apply (validate_iff_email (Blackpay.Name network)) in Hm. rewrite Hm. reflexivity.
Qed.

(** X5: [parseUrl] returns an address exactly when [url.parse] returns a
    record whose path, or whose host when the path is [null] or empty, is that
    address and the address is an e-mail address as [validate] reads it.  In
    every other case, an exception of [url.parse] included, it throws
    [Invalid address] and nothing else. *)
Theorem parseUrl_contract (url_parse : string -> outcome Blackpay.UrlRecord)
  (network uri : string) :
  (forall address,
     Blackpay.parseUrl url_parse network uri = Returns address <->
     exists rec,
       url_parse uri = Returns rec /\
       Blackpay.or_else (Blackpay.path rec) (Blackpay.host rec) = Some address /\
       Email.is_email (chars address))
  /\
  (forall e, Blackpay.parseUrl url_parse network uri = Throws e -> e = "Invalid address").
Proof.
  split; [intros address; apply parseUrl_Returns | intros e; apply parseUrl_Throws].
Qed.

(** X6: [getAddressType] never returns [null].  It returns [Regular]
    whenever [parseUrl] returns, and throws [Invalid address] otherwise: the
    address [parseUrl] returns has passed [validate] already. *)
Theorem getAddressType_never_null (url_parse : string -> outcome Blackpay.UrlRecord)
  (url network : string) :
  Blackpay.getAddressType url_parse url network
  = (address <- Blackpay.parseUrl url_parse network url ;; Returns (Some "Regular"))
  /\
  (Blackpay.getAddressType url_parse url network = Returns (Some "Regular") \/
   Blackpay.getAddressType url_parse url network = Throws "Invalid address").
Proof.
  split; [apply getAddressType_Regular|]. rewrite getAddressType_Regular.
  destruct (Blackpay.parseUrl url_parse network url) as [a|e] eqn:Hp; simpl;
    [left; reflexivity|].
  right. apply parseUrl_Throws in Hp. subst e. reflexivity.
Qed.

Lemma matchb_Never (w : list ascii) : Regex.matchb Regex.Never w = false.
Proof. induction w as [|c w IH]; [reflexivity | exact IH]. Qed.

Lemma matchb_app (r : Regex.regex) (u w : list ascii) :
  Regex.matchb r (u ++ w) = Regex.matchb (fold_left (fun r c => Regex.deriv c r) u r) w.
Proof. revert r. induction u as [|c u IH]; intros r; [reflexivity | apply IH]. Qed.

(** X7: [validate] rejects every URL that [buildUrl] builds: the colon of
    [tron:] is no character of a local part, and it stands before any [@]. *)
Theorem validate_rejects_buildUrl (network : Blackpay.network) (addr : string) :
  Blackpay.validate network (Blackpay.buildUrl addr) = false.
Proof.
  unfold Blackpay.validate, Blackpay.buildUrl, Regex.test.
  rewrite chars_append, matchb_app.
  replace (fold_left _ (chars "tron:") Blackpay.re) with Regex.Never
    by (vm_compute; reflexivity).
  apply matchb_Never.
Qed.

(** A string that [bs58check] decodes is made of Base58 characters. *)
Lemma digits_alphabet (cs : list ascii) (ds : list Z) :
  Bs58check.digits cs = Some ds ->
  forall c, In c cs -> Js.index_from c Bs58check.ALPHABET 0 <> None.
Proof.
  revert ds. induction cs as [|c cs IH]; intros ds H x Hin; [destruct Hin|].
  cbn [Bs58check.digits] in H.
  destruct (Js.index_from c Bs58check.ALPHABET 0) as [v|] eqn:Hc; [|discriminate].
  destruct (Bs58check.digits cs) as [ds'|]; [|discriminate].
  destruct Hin as [<-|Hin]; [congruence | exact (IH ds' eq_refl x Hin)].
Qed.

Lemma decode_no_at (s : string) (buf : list Z) :
  Bs58check.decode s = Returns buf -> ~ In "@"%char (chars s).
Proof.
  unfold Bs58check.decode, Bs58check.base58_decode. intros H Hin.
  destruct (Bs58check.digits (chars s)) as [ds|] eqn:Hd; [|discriminate].
  apply (digits_alphabet _ _ Hd) in Hin. apply Hin. vm_compute. reflexivity.
Qed.

(** X8: with [bs58check] as the decoder, [validate] of the plugin rejects
    every candidate that [base58Validator] accepts, whatever the network and
    the configuration: an e-mail address has an [@], which is no Base58
    character. *)
Theorem validate_excludes_base58 (network address : string) (opts : Base58Opts.t)
  (network' : Blackpay.network) :
  base58Validator Bs58check.decode network address opts = Returns true ->
  Blackpay.validate network' address = false.
Proof.
  unfold base58Validator. intros H.
  destruct (Bs58check.decode address) as [buf|e] eqn:Hd; [|discriminate].
  apply decode_no_at in Hd.
  destruct (Blackpay.validate network' address) eqn:Hv; [|reflexivity].
  apply validate_at in Hv. contradiction.
Qed.

(** The Tron address passes [base58Validator] under the configuration of the
    plugin, and [validate] rejects it. *)
Lemma validate_excludes_base58_witness :
  base58Validator Bs58check.decode "main" Examples.tron_address Blackpay.base58Opts
  = Returns true /\
  Blackpay.validate (Blackpay.Name "main") Examples.tron_address = false.
Proof.
  assert (H : base58Validator Bs58check.decode "main" Examples.tron_address
                Blackpay.base58Opts = Returns true) by (vm_compute; reflexivity).
  split; [exact H|].
  exact (validate_excludes_base58 "main" Examples.tron_address Blackpay.base58Opts
           (Blackpay.Name "main") H).
Defined.

(** X9: under the [base58Opts] of the plugin, [base58Validator] returns
    [true] exactly when the network is [main] or [test] and the candidate
    decodes to 21 bytes of which the first is 0x41.  The two networks have the
    same table, so they accept the same candidates, and [regtest] accepts
    none. *)
Theorem base58Validator_blackpay (bs58check_decode : string -> outcome (list Z))
  (network address : string) :
  base58Validator bs58check_decode network address Blackpay.base58Opts = Returns true <->
  (network = "main" \/ network = "test") /\
  exists rest,
    bs58check_decode address = Returns (0x41 :: rest) /\ List.length rest = 20%nat.
Proof.
  unfold base58Validator.
  destruct (bs58check_decode address) as [buf|e]; cbn [bind try_catch].
  2:{ split; [discriminate | intros [_ (r & H & _)]; discriminate]. }
  cbn [Base58Opts.bufferLength Base58Opts.mainNetPrefix Base58Opts.testNetPrefix
       Base58Opts.regtestPrefix Blackpay.base58Opts].
  destruct (Z.eqb_spec (Z.of_nat (List.length buf)) 21) as [Hlen|Hlen]; cbn [negb].
  2:{ split; [discriminate|]. intros [_ (r & H & Hr)]. injection H as ->.
      cbn [List.length] in Hlen. lia. }
  assert (Hp : validatePrefix [[0x41]] buf = true <-> exists rest, buf = 0x41 :: rest).
  { rewrite validatePrefix_iff. split.
    - intros (a & [<-|[]] & _ & [rest ->]). exists rest. reflexivity.
    - intros [rest ->]. exists [0x41]. split; [left; reflexivity|].
      split; [discriminate | exists rest; reflexivity]. }
  assert (Hq : (exists rest, buf = 0x41 :: rest) <->
               exists rest, Returns buf = Returns (0x41 :: rest) /\ List.length rest = 20%nat).
  { split.
    - intros [rest ->]. exists rest. split; [reflexivity|]. cbn [List.length] in Hlen. lia.
    - intros (rest & H & _). injection H as ->. exists rest. reflexivity. }
  destruct (String.eqb_spec network "main") as [Hm|Hm];
    [|destruct (String.eqb_spec network "test") as [Ht|Ht];
      [|destruct (String.eqb_spec network "regtest") as [Hr|Hr]]].
  - rewrite <- Hq, <- Hp. split.
    + intros H. injection H as H. auto.
    + intros [_ H]. rewrite H. reflexivity.
  - rewrite <- Hq, <- Hp. split.
    + intros H. injection H as H. auto.
    + intros [_ H]. rewrite H. reflexivity.
  - split; [discriminate|]. intros [[H|H] _]; subst; discriminate.
  - split; [discriminate|]. intros [[H|H] _]; contradiction.
Qed.

(** ** Hexadecimal digits and bytes *)

Lemma land_255_range (b : Z) : 0 <= Z.land b 255 < 256.
Proof.
  change 255 with (Z.ones 8). rewrite Z.land_ones by lia.
  apply Z.mod_pos_bound. reflexivity.
Qed.

Lemma land_255_small (b : Z) : 0 <= b < 256 -> Z.land b 255 = b.
Proof.
  intros H. change 255 with (Z.ones 8). rewrite Z.land_ones by lia.
  apply Z.mod_small. exact H.
Qed.

Lemma charCode_range (c : ascii) : 0 <= Js.charCode c < 256.
Proof. unfold Js.charCode. pose proof (N_ascii_bounded c). lia. Qed.

Lemma text_chars (s : string) : text (chars s) = s.
Proof. apply string_of_list_ascii_of_string. Qed.

Lemma length_append (s t : string) :
  String.length (s ++ t) = (String.length s + String.length t)%nat.
Proof. induction s as [|c s IH]; simpl; [reflexivity | rewrite IH; reflexivity]. Qed.

Lemma append_assoc (s t u : string) : (s ++ t) ++ u = s ++ (t ++ u).
Proof. induction s as [|c s IH]; simpl; [reflexivity | rewrite IH; reflexivity]. Qed.

Lemma toHex_app (a b : list Z) : Js.toHex (a ++ b) = Js.toHex a ++ Js.toHex b.
Proof. induction a as [|x a IH]; simpl; [reflexivity | rewrite IH; reflexivity]. Qed.

Lemma toHex_length (l : list Z) : String.length (Js.toHex l) = (2 * List.length l)%nat.
Proof. induction l as [|x l IH]; simpl; [reflexivity | rewrite IH; lia]. Qed.

(** Below 256, by enumeration. *)
Lemma below_256 (P : Z -> bool) :
  forallb P (map Z.of_nat (seq 0 256)) = true ->
  forall b, 0 <= b < 256 -> P b = true.
Proof.
  intros H b Hb. rewrite forallb_forall in H. apply H.
  apply in_map_iff. exists (Z.to_nat b). split; [lia|].
  apply in_seq. lia.
Qed.

(** [parseInt] reads the two digits of a byte back. *)
Lemma parseInt16_hexdigits (b : Z) :
  0 <= b < 256 ->
  Hex.parseInt16 (String (Js.hexdigit (b / 16)) (String (Js.hexdigit (b mod 16)) ""))
  = Some b.
Proof.
  intros Hb.
  apply (below_256 (fun b =>
           match Hex.parseInt16
                   (String (Js.hexdigit (b / 16)) (String (Js.hexdigit (b mod 16)) "")) with
           | Some v => v =? b
           | None => false
           end)) in Hb; [|vm_compute; reflexivity].
  destruct (Hex.parseInt16 _) as [v|]; [|discriminate].
  apply Z.eqb_eq in Hb. congruence.
Qed.

Lemma substring_app_2 (pre rest : string) (h l : ascii) :
  String.substring (String.length pre) 2 (pre ++ String h (String l rest))
  = String h (String l "").
Proof.
  induction pre as [|c pre IH]; simpl; [|exact IH].
  destruct rest; reflexivity.
Qed.

(** The loop of [hexToBin] at byte [i] of the digits of [pre ++ bytes]. *)
Lemma hexToBin_loop_toHex (pre bytes : list Z) :
  hexToBin_loop (Js.toHex pre ++ Js.toHex bytes) (List.length bytes)
    (Z.of_nat (List.length pre))
  = low_bytes bytes.
Proof.
  unfold low_bytes. revert pre. induction bytes as [|b bytes IH]; intros pre; [reflexivity|].
  cbn [List.length hexToBin_loop map]. f_equal.
  - unfold Js.slice, Js.length.
    rewrite length_append, !toHex_length. cbn [List.length].
    replace (Z.of_nat (List.length pre) * 2 <? 0) with false
      by (symmetry; apply Z.ltb_ge; lia).
    replace (Z.of_nat (List.length pre) * 2 + 2 <? 0) with false
      by (symmetry; apply Z.ltb_ge; lia).
    replace (Z.to_nat (Z.min (Z.of_nat (List.length pre) * 2) _))
      with (String.length (Js.toHex pre)) by (rewrite toHex_length; lia).
    replace (Z.to_nat (Z.max _ 0)) with 2%nat by lia.
    cbn [Js.toHex]. rewrite substring_app_2.
    rewrite parseInt16_hexdigits by apply land_255_range.
    cbn [Hex.toUint8]. apply Z.mod_small. apply land_255_range.
  - replace (Js.toHex pre ++ Js.toHex (b :: bytes))
      with (Js.toHex (pre ++ [b]) ++ Js.toHex bytes)
      by (rewrite toHex_app, append_assoc; reflexivity).
    replace (Z.of_nat (List.length pre) + 1) with (Z.of_nat (List.length (pre ++ [b])))
      by (rewrite length_app; simpl; lia).
    apply IH.
Qed.

Lemma hexToBin_of_toHex (bytes : list Z) :
  hexToBin (Js.toHex bytes) = Some (low_bytes bytes).
Proof.
  unfold hexToBin, Js.length. rewrite toHex_length.
  replace (Z.of_nat (2 * List.length bytes) mod 2) with 0
    by (symmetry; rewrite Nat2Z.inj_mul, Z.mul_comm; apply Z.mod_mul; discriminate).
  cbn [Z.eqb negb]. f_equal.
  replace (Z.to_nat (Z.of_nat (2 * List.length bytes) / 2)) with (List.length bytes)
    by (rewrite Nat2Z.inj_mul, Z.mul_comm, Z.div_mul by discriminate; lia).
  apply (hexToBin_loop_toHex []).
Qed.

(** X10: [hexToBin] reads back the bytes whose hexadecimal digits
    [toString('hex')] wrote: a round trip, for a buffer of any length. *)
Theorem hexToBin_toHex (bytes : list Z) :
  hexToBin (Js.toHex bytes) = Some (low_bytes bytes).
Proof. apply hexToBin_of_toHex. Qed.

Lemma hexToBin_loop_length (hex : string) (n : nat) (i : Z) :
  List.length (hexToBin_loop hex n i) = n.
Proof.
  revert i. induction n as [|n IH]; intros i; simpl; [reflexivity|].
  rewrite IH. reflexivity.
Qed.

(** Whatever [parseInt] reads, the [Uint8Array] keeps a byte. *)
Lemma hexToBin_loop_range (hex : string) (n : nat) (i : Z) :
  Forall is_byte (hexToBin_loop hex n i).
Proof.
  unfold is_byte. revert i. induction n as [|n IH]; intros i; simpl; constructor; [|apply IH].
  destruct (Hex.parseInt16 _) as [v|]; simpl; [|lia].
  pose proof (Z.mod_pos_bound v 256). lia.
Qed.

(** X11: [hexToBin] returns [null] on an odd number of characters and on
    nothing else.  On an even number it returns half as many bytes, whatever
    the characters are: a pair that is no hexadecimal number is no error. *)
Theorem hexToBin_shape (hex : string) :
  match hexToBin hex with
  | Some res =>
      Js.length hex = 2 * Z.of_nat (List.length res) /\ Forall is_byte res
  | None => Js.length hex mod 2 = 1
  end.
Proof.
  unfold hexToBin.
  pose proof (Z.mod_pos_bound (Js.length hex) 2 ltac:(lia)) as Hm.
  destruct (Z.eqb_spec (Js.length hex mod 2) 0) as [E|E]; cbn [negb]; [|lia].
  split; [|apply hexToBin_loop_range].
  rewrite hexToBin_loop_length.
  pose proof (Z.div_mod (Js.length hex) 2 ltac:(lia)) as Hd.
  assert (0 <= Js.length hex) by (unfold Js.length; lia).
  assert (0 <= Js.length hex / 2) by (apply Z.div_pos; lia).
  lia.
Qed.

(** *** Cutting a string of digits cuts the bytes *)

Lemma chars_toHex_firstn (k : nat) (l : list Z) :
  firstn (2 * k) (chars (Js.toHex l)) = chars (Js.toHex (firstn k l)).
Proof.
  revert l. induction k as [|k IH]; intros l; [reflexivity|].
  replace (2 * S k)%nat with (S (S (2 * k))) by lia.
  destruct l as [|b l]; [reflexivity|].
  cbn [Js.toHex firstn list_ascii_of_string]. rewrite IH. reflexivity.
Qed.

Lemma chars_toHex_skipn (k : nat) (l : list Z) :
  skipn (2 * k) (chars (Js.toHex l)) = chars (Js.toHex (skipn k l)).
Proof.
  revert l. induction k as [|k IH]; intros l; [reflexivity|].
  replace (2 * S k)%nat with (S (S (2 * k))) by lia.
  destruct l as [|b l]; [reflexivity|].
  cbn [Js.toHex skipn list_ascii_of_string]. apply IH.
Qed.

Lemma first_chars_toHex (k : nat) (l : list Z) :
  first_chars (2 * k) (Js.toHex l) = Js.toHex (firstn k l).
Proof. unfold first_chars. rewrite chars_toHex_firstn. apply text_chars. Qed.

Lemma all_but_last_toHex (k : nat) (l : list Z) :
  all_but_last (2 * k) (Js.toHex l) = Js.toHex (firstn (List.length l - k) l).
Proof.
  unfold all_but_last. rewrite toHex_length.
  replace (2 * List.length l - 2 * k)%nat with (2 * (List.length l - k))%nat by lia.
  rewrite chars_toHex_firstn. apply text_chars.
Qed.

Lemma last_chars_toHex (k : nat) (l : list Z) :
  last_chars (2 * k) (Js.toHex l) = Js.toHex (skipn (List.length l - k) l).
Proof.
  unfold last_chars. rewrite toHex_length.
  replace (2 * List.length l - 2 * k)%nat with (2 * (List.length l - k))%nat by lia.
  rewrite chars_toHex_skipn. apply text_chars.
Qed.

Lemma toHex_zeros (m : nat) : chars (Js.toHex (repeat 0 m)) = repeat "0"%char (2 * m).
Proof.
  induction m as [|m IH]; [reflexivity|].
  replace (2 * S m)%nat with (S (S (2 * m))) by lia.
  cbn [repeat Js.toHex list_ascii_of_string]. rewrite IH. reflexivity.
Qed.

(** The padded digits, cut to 32, are the digits of the padded bytes, cut to
    16. *)
Lemma first_chars_pad_end_toHex (l : list Z) :
  first_chars 32 (pad_end 32 (Js.toHex l)) = Js.toHex (firstn 16 (l ++ repeat 0 16)).
Proof.
  unfold first_chars, pad_end.
  rewrite chars_append, list_ascii_of_string_of_list_ascii, <- chars_length.
  rewrite <- (firstn_padding 32).
  change (repeat "0"%char 32) with (repeat "0"%char (2 * 16)).
  rewrite <- toHex_zeros, <- chars_append, <- toHex_app.
  rewrite (chars_toHex_firstn 16). apply text_chars.
Qed.

Lemma toHex_low_bytes (l : list Z) : Js.toHex (low_bytes l) = Js.toHex l.
Proof.
  unfold low_bytes. induction l as [|b l IH]; [reflexivity|]. cbn [map Js.toHex].
  rewrite IH.
  replace (Z.land (Z.land b 255) 255) with (Z.land b 255)
    by (rewrite <- Z.land_assoc; reflexivity).
  reflexivity.
Qed.

(** Two buffers have the same digits exactly when they have the same bytes. *)
Lemma toHex_inj (a b : list Z) : Js.toHex a = Js.toHex b <-> low_bytes a = low_bytes b.
Proof.
  split.
  - unfold low_bytes. revert b.
    induction a as [|x a IH]; intros [|y b] H; try discriminate; [reflexivity|].
    cbn [Js.toHex] in H. injection H as Hh Hl Hrest.
    cbn [map]. f_equal; [|apply IH; exact Hrest].
    pose proof (parseInt16_hexdigits _ (land_255_range x)) as Hx.
    pose proof (parseInt16_hexdigits _ (land_255_range y)) as Hy.
    rewrite Hh, Hl in Hx. congruence.
  - intros H. rewrite <- (toHex_low_bytes a), <- (toHex_low_bytes b), H. reflexivity.
Qed.

(** The bytes of a string and the zero bytes after them are bytes. *)
Lemma low_bytes_padded (s : string) (n : nat) :
  low_bytes (firstn n (Js.bytes_of_string s ++ repeat 0 n))
  = firstn n (Js.bytes_of_string s ++ repeat 0 n).
Proof.
  unfold low_bytes. rewrite <- (map_id (firstn n _)) at 2. apply map_ext_in.
  intros b Hb. apply land_255_small.
  assert (Hin : In b (Js.bytes_of_string s ++ repeat 0 n)).
  { rewrite <- (firstn_skipn n). apply in_or_app. left. exact Hb. }
  apply in_app_or in Hin as [Hin|Hin].
  - unfold Js.bytes_of_string in Hin. apply in_map_iff in Hin as (c & <- & _).
    apply charCode_range.
  - apply repeat_spec in Hin. subst b. lia.
Qed.

(** X12: [confirmPadding], on bytes.  It returns [true] exactly when the
    payload has at least 16 bytes and its last 16 bytes are the bytes of the
    prefix followed by zero bytes; of a prefix longer than 16 bytes, the first
    16 are compared. *)
Theorem confirmPadding_bytes (unjumbled : list Z) (humanReadiblePadding : string) :
  confirmPadding unjumbled humanReadiblePadding = true <->
  (16 <= List.length unjumbled)%nat /\
  low_bytes (skipn (List.length unjumbled - 16) unjumbled)
  = firstn 16 (Js.bytes_of_string humanReadiblePadding ++ repeat 0 16).
Proof.
  rewrite confirmPadding_iff, (last_chars_toHex 16), first_chars_pad_end_toHex, toHex_inj.
  rewrite low_bytes_padded. split; [|intros [_ H]; exact H].
  intros H. split; [|exact H].
  apply (f_equal (@List.length Z)) in H. unfold low_bytes in H.
  rewrite length_map, length_skipn, length_firstn, length_app, repeat_length in H. lia.
Qed.

(** X13: [xmrValidator], on bytes.  When the decoder returns the hexadecimal
    digits of a buffer, the validator returns [true] exactly when the digits
    start with a configured prefix of the network and the last 4 bytes of the
    buffer are the first 4 bytes of the hash of the bytes before them:
    [hexToBin] reads the payload back, and the two strings of 8 digits are
    equal when the bytes are. *)
Theorem xmrValidator_bytes (cnBase58_decode : string -> outcome string)
  (keccak256 : list Z -> list Z) (network address : string) (opts : XmrOpts.t)
  (bytes : list Z) :
  cnBase58_decode address = Returns (Js.toHex bytes) ->
  (xmrValidator cnBase58_decode keccak256 network address opts = Returns true <->
   configured_xmr_prefix opts network (Js.toHex bytes) /\
   low_bytes (skipn (List.length bytes - 4) bytes)
   = low_bytes (firstn 4 (keccak256 (low_bytes (firstn (List.length bytes - 4) bytes))))).
Proof.
  intros Hd. unfold xmrValidator. rewrite Hd. cbn [bind try_catch].
  rewrite (slice_all_but_last _ 8), (slice_from_last_chars _ 8) by lia.
  rewrite (all_but_last_toHex 4), hexToBin_of_toHex.
  cbn [keccak256Checksum checksum_is]. rewrite substring0_first_chars.
  change (Z.to_nat 8) with (2 * 4)%nat.
  rewrite (last_chars_toHex 4), (first_chars_toHex 4), <- toHex_inj.
  rewrite configured_xmr_prefix_iff.
  set (m := Js.startsWith _ (XmrOpts.mainNetPublicAddrPrefix opts) || _ || _).
  set (t := Js.startsWith _ (XmrOpts.testNetPublicAddrPrefix opts) || _ || _).
  destruct (String.eqb_spec (Js.toHex (skipn (List.length bytes - 4) bytes))
              (Js.toHex (firstn 4 (keccak256
                 (low_bytes (firstn (List.length bytes - 4) bytes))))))
    as [Hs|Hs].
  - rewrite !andb_true_r.
    destruct (String.eqb_spec network "main") as [Hm|Hm];
    destruct (String.eqb_spec network "test") as [Ht|Ht];
    try (subst; discriminate); cbn [andb].
    + destruct m; split; auto; try discriminate.
      intros [[[_ H]|[H _]] _]; [discriminate | subst; discriminate].
    + destruct t; split; auto; try discriminate.
      intros [[[H _]|[_ H]] _]; [subst; discriminate | discriminate].
    + split; [discriminate|]. intros [[[H _]|[H _]] _]; contradiction.
  - rewrite !andb_false_r. cbn [andb]. split; [discriminate|]. intros [_ H]. contradiction.
Qed.

(** The donation address of the Monero project decodes to the digits of 69
    bytes, and is accepted for [main]. *)
Lemma xmrValidator_bytes_witness :
  CnBase58.decode Examples.monero_address = Returns (Js.toHex Examples.monero_bytes) /\
  xmrValidator CnBase58.decode Keccak.keccak256 "main" Examples.monero_address
    Examples.xmr_opts = Returns true.
Proof.
  assert (H : CnBase58.decode Examples.monero_address
              = Returns (Js.toHex Examples.monero_bytes)) by (vm_compute; reflexivity).
  split; [exact H|].
  apply (xmrValidator_bytes CnBase58.decode Keccak.keccak256 "main"
           Examples.monero_address Examples.xmr_opts Examples.monero_bytes H).
  split; [|vm_compute; reflexivity].
  left. split; [reflexivity|]. exists "12". split; [left; reflexivity|].
  eexists. vm_compute. reflexivity.
Defined.

(** ** The Bech32 family: what an accepting call went through *)

Lemma bech32Validator_decodes (network address : string) (opts : Bech32Opts.t)
  (limit : option Z) :
  bech32Validator network address opts limit = Returns true ->
  exists d, Bech32.decode Bech32.bech32 address limit = Returns d.
Proof.
  unfold bech32Validator.
  destruct (Bech32.decode Bech32.bech32 address limit) as [d|e]; [eauto | discriminate].
Qed.

Lemma bech32mValidator_true (network address : string) (opts : Bech32Opts.t) :
  bech32mValidator network address opts = Returns true ->
  exists d v data,
    Bech32.decode Bech32.bech32m address None = Returns d /\
    nth_error (Bech32.words d) 0 = Some v /\
    Bech32.fromWords (skipn 1 (Bech32.words d)) = Returns data /\
    2 <= Z.of_nat (List.length data) <= 40 /\
    configured_prefix opts network (Bech32.prefix d).
Proof.
  unfold bech32mValidator.
  destruct (Bech32.decode Bech32.bech32m address None) as [d|e]; [|discriminate].
  destruct (nth_error (Bech32.words d) 0) as [v|] eqn:Hv.
  - destruct (_ || _); [discriminate|].
    destruct (Bech32.fromWords (skipn 1 (Bech32.words d))) as [data|e] eqn:Hdata;
      [|discriminate].
    cbn [bind]. destruct (_ || _) eqn:Hlen; [discriminate|].
    apply orb_false_iff in Hlen as [H2 H40]. apply Z.ltb_ge in H2.
    rewrite Z.gtb_ltb in H40. apply Z.ltb_ge in H40.
    intros H. injection H as H. apply network_prefix_matches_iff in H.
    exists d, v, data. repeat split; auto.
  - destruct (Bech32.words d) as [|w ws]; [|discriminate].
    intros H. vm_compute in H. discriminate.
Qed.

Lemma zecBech32Validator_true (network address : string) (opts : Bech32Opts.t) :
  zecBech32Validator network address opts = Returns true ->
  exists d data,
    Bech32.decode Bech32.bech32 address None = Returns d /\
    Bech32.fromWords (Bech32.words d) = Returns data /\
    Z.of_nat (List.length data) = 43 /\
    configured_prefix opts network (Bech32.prefix d).
Proof.
  unfold zecBech32Validator, configured_prefix.
  destruct (Bech32.decode Bech32.bech32 address None) as [d|e]; [|discriminate].
  destruct (Bech32.fromWords _) as [data|e] eqn:Hdata; [|discriminate]. cbn [bind].
  destruct (Z.eqb_spec (Z.of_nat (List.length data)) 43) as [H43|H43]; [|discriminate].
  cbn [negb]. intros H. exists d, data.
  split; [reflexivity|]. split; [exact Hdata|]. split; [exact H43|].
  destruct (String.eqb_spec network "main") as [Hm|Hm]; cbn [andb] in H.
  - destruct (String.eqb_spec (Bech32.prefix d) (Bech32Opts.mainNetPrefix opts)); [auto|].
    destruct (String.eqb_spec network "test"); [subst; discriminate | discriminate].
  - destruct (String.eqb_spec network "test") as [Ht|Ht]; [|discriminate].
    cbn [andb] in H.
    destruct (String.eqb_spec (Bech32.prefix d) (Bech32Opts.testNetPrefix opts));
      [auto | discriminate].
Qed.

Lemma zecBech32mValidator_decodes (reverseF4Jumble : list Z -> outcome (list Z))
  (network address : string) (opts : Bech32Opts.t) :
  zecBech32mValidator reverseF4Jumble network address opts = Returns true ->
  exists d, Bech32.decode Bech32.bech32m address (Some 512) = Returns d.
Proof.
  unfold zecBech32mValidator.
  destruct (Bech32.decode Bech32.bech32m address (Some 512)) as [d|e]; [eauto | discriminate].
Qed.

(** ** The two checksums exclude each other *)

(** The two codecs compute the same checksum and compare it with different
    constants. *)
Lemma decode_not_both (str : string) (l1 l2 : option Z) (d1 d2 : Bech32.Decoded) :
  Bech32.decode Bech32.bech32 str l1 = Returns d1 ->
  Bech32.decode Bech32.bech32m str l2 = Returns d2 ->
  False.
Proof.
  unfold Bech32.decode, Bech32.decode_.
  destruct (Js.length str <? 8); [discriminate|].
  destruct (Js.length str >? _); [discriminate|].
  destruct (Js.length str >? _); [discriminate|].
  destruct (negb _ && negb _); [discriminate|].
  destruct (_ =? -1); [discriminate|].
  destruct (_ =? 0); [discriminate|].
  destruct (Js.length _ <? 6); [discriminate|].
  destruct (Bech32.prefixChk _) as [msg|chk]; [discriminate|].
  destruct (Bech32.decode_words _ _ _) as [msg|[chk' ws]]; [discriminate|].
  destruct (Z.eqb_spec chk' (Bech32.ENCODING_CONST Bech32.bech32)) as [E1|E1];
    [|discriminate].
  destruct (Z.eqb_spec chk' (Bech32.ENCODING_CONST Bech32.bech32m)) as [E2|E2];
    [|discriminate].
  rewrite E1 in E2. discriminate.
Qed.

(** X14: no candidate passes under both checksums.  A candidate that
    [bech32mValidator] or [zecBech32mValidator] accepts is rejected, not
    thrown on, by [bech32Validator], in either mode, and by
    [zecBech32Validator], and the other way round, whatever the networks and
    the configurations. *)
Theorem checksums_exclude (reverseF4Jumble : list Z -> outcome (list Z))
  (n1 n2 address : string) (o1 o2 : Bech32Opts.t) (limit : option Z) :
  (bech32mValidator n1 address o1 = Returns true \/
   zecBech32mValidator reverseF4Jumble n1 address o1 = Returns true ->
   bech32Validator n2 address o2 limit = Returns false /\
   zecBech32Validator n2 address o2 = Returns false)
  /\
  (bech32Validator n1 address o1 limit = Returns true \/
   zecBech32Validator n1 address o1 = Returns true ->
   bech32mValidator n2 address o2 = Returns false /\
   zecBech32mValidator reverseF4Jumble n2 address o2 = Returns false).
Proof.
  split.
  - intros H.
    assert (Hm : exists l d, Bech32.decode Bech32.bech32m address l = Returns d).
    { destruct H as [H|H].
      - apply bech32mValidator_true in H as (d & _ & _ & H & _). eauto.
      - apply zecBech32mValidator_decodes in H as [d H]. eauto. }
    destruct Hm as (l & d & Hm).
    unfold bech32Validator, zecBech32Validator. split.
    + destruct (Bech32.decode Bech32.bech32 address limit) as [d'|e] eqn:Hd; [|reflexivity].
      destruct (decode_not_both _ _ _ _ _ Hd Hm).
    + destruct (Bech32.decode Bech32.bech32 address None) as [d'|e] eqn:Hd; [|reflexivity].
      destruct (decode_not_both _ _ _ _ _ Hd Hm).
  - intros H.
    assert (Hb : exists l d, Bech32.decode Bech32.bech32 address l = Returns d).
    { destruct H as [H|H].
      - apply bech32Validator_decodes in H as [d H]. eauto.
      - apply zecBech32Validator_true in H as (d & _ & H & _). eauto. }
    destruct Hb as (l & d & Hb).
    unfold bech32mValidator, zecBech32mValidator. split.
    + destruct (Bech32.decode Bech32.bech32m address None) as [d'|e] eqn:Hd; [|reflexivity].
      destruct (decode_not_both _ _ _ _ _ Hb Hd).
    + destruct (Bech32.decode Bech32.bech32m address (Some 512)) as [d'|e] eqn:Hd;
        [|reflexivity].
      destruct (decode_not_both _ _ _ _ _ Hb Hd).
Qed.

(** The Taproot address passes [bech32mValidator]; [bech32Validator] and
    [zecBech32Validator] reject it. *)
Lemma checksums_exclude_witness :
  bech32mValidator "main" Examples.taproot_address Examples.btc_opts = Returns true /\
  bech32Validator "main" Examples.taproot_address Examples.btc_opts None = Returns false /\
  zecBech32Validator "main" Examples.taproot_address Examples.btc_opts = Returns false.
Proof.
  assert (H : bech32mValidator "main" Examples.taproot_address Examples.btc_opts
              = Returns true) by (vm_compute; reflexivity).
  split; [exact H|].
  exact (proj1 (checksums_exclude F4Jumble.f4Unjumble "main" "main"
                  Examples.taproot_address Examples.btc_opts Examples.btc_opts None)
           (or_introl H)).
Defined.

(** ** The case of the candidate

    What follows asks of the candidate what it needs of [toLowerCase], and
    nothing of how [toLowerCase] maps a character: that the lower-case form is
    in lower case, and that it has as many characters as the candidate. *)






(** ** Re-packing words into bytes *)

Lemma and_255_byte (x : Z) : is_byte (Js.and x 255).
Proof. unfold is_byte, Js.and. pose proof (land_255_range x). lia. Qed.

(** With five bits in and eight out, the inner loop of [convert] runs once
    or not at all. *)
Lemma convert_drain_5_8 (value bits : Z) (result : list Z) :
  0 <= bits < 8 ->
  Bech32.convert_drain (Z.to_nat (bits + 5)) value (bits + 5) 8 255 result
  = if bits + 5 >=? 8
    then (bits - 3, (result ++ [Js.and (Js.shr value (bits - 3)) 255])%list)
    else (bits + 5, result).
Proof.
  intros Hb. destruct (Z.to_nat (bits + 5)) as [|[|fuel]] eqn:E; try lia.
  cbn [Bech32.convert_drain].
  destruct (bits + 5 >=? 8) eqn:H8; [|reflexivity].
  replace (bits + 5 - 8) with (bits - 3) by lia.
  replace (bits - 3 >=? 8) with false
    by (symmetry; rewrite Z.geb_leb; apply Z.leb_gt; lia).
  reflexivity.
Qed.

(** The loop keeps fewer than eight bits waiting, and loses none. *)
Lemma convert_loop_5_8 (data : list Z) (value bits : Z) (result : list Z) :
  0 <= bits < 8 -> Forall is_byte result ->
  exists value' bits' result',
    Bech32.convert_loop data 5 8 255 value bits result = (value', bits', result') /\
    0 <= bits' < 8 /\
    8 * Z.of_nat (List.length result') + bits'
    = 8 * Z.of_nat (List.length result) + bits + 5 * Z.of_nat (List.length data) /\
    Forall is_byte result'.
Proof.
  revert value bits result. induction data as [|d data IH]; intros value bits result Hb Hr.
  - exists value, bits, result. simpl. repeat split; auto; lia.
  - cbn [Bech32.convert_loop]. rewrite convert_drain_5_8 by exact Hb.
    destruct (bits + 5 >=? 8) eqn:H8.
    + apply Z.geb_le in H8.
      destruct (IH (Js.or (Js.shl value 5) d) (bits - 3)
                  (result ++ [Js.and (Js.shr (Js.or (Js.shl value 5) d) (bits - 3)) 255])%list)
        as (v' & b' & r' & E & Hb' & Hlen & Hr').
      * lia.
      * apply Forall_app. split; [exact Hr|]. constructor; [apply and_255_byte | constructor].
      * exists v', b', r'. split; [exact E|]. split; [exact Hb'|]. split; [|exact Hr'].
        rewrite Hlen, length_app. cbn [List.length]. lia.
    + rewrite Z.geb_leb in H8. apply Z.leb_gt in H8.
      destruct (IH (Js.or (Js.shl value 5) d) (bits + 5) result)
        as (v' & b' & r' & E & Hb' & Hlen & Hr'); [lia | exact Hr|].
      exists v', b', r'. split; [exact E|]. split; [exact Hb'|]. split; [|exact Hr'].
      rewrite Hlen. cbn [List.length]. lia.
Qed.

(** What is left after the loop of [fromWords]. *)
Lemma fromWords_loop (words : list Z) :
  exists value bits result,
    Bech32.convert_loop words 5 8 255 0 0 [] = (value, bits, result) /\
    0 <= bits < 8 /\
    5 * Z.of_nat (List.length words) = 8 * Z.of_nat (List.length result) + bits /\
    Forall is_byte result.
Proof.
  destruct (convert_loop_5_8 words 0 0 [] ltac:(lia) ltac:(constructor))
    as (v & b & r & E & Hb & Hlen & Hr).
  exists v, b, r. cbn [List.length] in Hlen. repeat split; auto; lia.
Qed.

Lemma fromWords_count (words data : list Z) :
  Bech32.fromWords words = Returns data ->
  8 * Z.of_nat (List.length data) <= 5 * Z.of_nat (List.length words)
  <= 8 * Z.of_nat (List.length data) + 4.
Proof.
  intros H. unfold Bech32.fromWords, Bech32.convert in H.
  change (Js.shl 1 8 - 1) with 255 in H.
  destruct (fromWords_loop words) as (v & b & r & E & Hb & Hlen & Hr).
  rewrite E in H.
  destruct (b >=? 5) eqn:H5; [discriminate|].
  rewrite Z.geb_leb in H5. apply Z.leb_gt in H5.
  destruct (negb _); [discriminate|]. injection H as <-. lia.
Qed.

(** X16: what [fromWords] returns and throws.  It returns as many bytes as
    the words hold whole bytes, five bits a word, each in 0..255; it throws
    [Excess padding] exactly when five bits or more are left over, and
    otherwise throws nothing but [Non-zero padding]. *)
Theorem fromWords_length (words : list Z) :
  match Bech32.fromWords words with
  | Returns data =>
      Z.of_nat (List.length data) = 5 * Z.of_nat (List.length words) / 8 /\
      Forall is_byte data
  | Throws e => e = "Excess padding" \/ e = "Non-zero padding"
  end
  /\
  (Bech32.fromWords words = Throws "Excess padding" <->
   5 <= (5 * Z.of_nat (List.length words)) mod 8).
Proof.
  unfold Bech32.fromWords, Bech32.convert.
  change (Js.shl 1 8 - 1) with 255.
  destruct (fromWords_loop words) as (v & b & r & E & Hb & Hlen & Hr).
  rewrite E.
  assert (Hq : 5 * Z.of_nat (List.length words) / 8 = Z.of_nat (List.length r) /\
               (5 * Z.of_nat (List.length words)) mod 8 = b).
  { rewrite Hlen. split.
    - rewrite Z.mul_comm, Z.div_add_l by lia. rewrite Z.div_small by lia. lia.
    - rewrite Z.mul_comm, Z.add_comm, Z.mod_add by lia. apply Z.mod_small. lia. }
  destruct Hq as [Hq Hm]. rewrite Hq, Hm.
  destruct (b >=? 5) eqn:H5.
  - apply Z.geb_le in H5. split; [left; reflexivity|]. split; [lia | reflexivity].
  - rewrite Z.geb_leb in H5. apply Z.leb_gt in H5.
    destruct (negb _).
    + split; [right; reflexivity|]. split; [discriminate | lia].
    + split; [split; [reflexivity | exact Hr]|]. split; [discriminate | lia].
Qed.

(** ** What [decode] returns *)

Lemma index_from_range (c : ascii) (s : string) (i v : Z) :
  Js.index_from c s i = Some v -> i <= v < i + Js.length s.
Proof.
  unfold Js.length. revert i. induction s as [|d s IH]; intros i; simpl; [discriminate|].
  destruct (Ascii.eqb d c).
  - intros H. injection H as <-. lia.
  - intros H. apply IH in H. lia.
Qed.

Lemma ALPHABET_MAP_word (c : ascii) (v : Z) : Bech32.ALPHABET_MAP c = Some v -> is_word v.
Proof. intros H. apply index_from_range in H. exact H. Qed.

Lemma prefixChk_high_range (cs : list ascii) (chk chk' : Z) :
  Bech32.prefixChk_high cs chk = Some chk' ->
  Forall (fun c => 33 <= Js.charCode c <= 126) cs.
Proof.
  revert chk. induction cs as [|c cs IH]; intros chk; [constructor|].
  cbn [Bech32.prefixChk_high].
  destruct ((Js.charCode c <? 33) || (Js.charCode c >? 126)) eqn:Hc; [discriminate|].
  apply orb_false_iff in Hc as [H33 H126]. apply Z.ltb_ge in H33.
  rewrite Z.gtb_ltb in H126. apply Z.ltb_ge in H126.
  intros H. constructor; [lia | exact (IH _ H)].
Qed.

(** The words are the values of the characters, less the last six. *)
Lemma decode_words_values (cs : list ascii) (chk : Z) (ws : list Z) (chk' : Z)
  (ws' : list Z) :
  Bech32.decode_words cs chk ws = inr (chk', ws') ->
  map Some ws' = (map Some ws ++ map Bech32.ALPHABET_MAP (firstn (List.length cs - 6) cs))%list.
Proof.
  revert chk ws. induction cs as [|c cs IH]; intros chk ws.
  - simpl. intros H. injection H as _ <-. rewrite app_nil_r. reflexivity.
  - cbn [Bech32.decode_words].
    destruct (Bech32.ALPHABET_MAP c) as [v|] eqn:Hv; [|discriminate].
    destruct (6 >=? Z.of_nat (List.length (c :: cs))) eqn:H6.
    + apply Z.geb_le in H6. cbn [List.length] in H6 |- *. intros H. apply IH in H.
      rewrite H. replace (S (List.length cs) - 6)%nat with 0%nat by lia.
      replace (List.length cs - 6)%nat with 0%nat by lia. reflexivity.
    + rewrite Z.geb_leb in H6. apply Z.leb_gt in H6. cbn [List.length] in H6 |- *.
      intros H. apply IH in H. rewrite H.
      replace (S (List.length cs) - 6)%nat with (S (List.length cs - 6)) by lia.
      cbn [firstn map]. rewrite Hv, map_app, <- app_assoc. reflexivity.
Qed.

(** The last [c] of [s] splits it. *)
Lemma lastIndexOf_from_split (c : ascii) (s : string) (i last : Z) :
  last < i ->
  (Js.lastIndexOf_from c s i last = last /\ ~ In c (chars s)) \/
  (exists pre post,
     s = pre ++ String c post /\
     Js.lastIndexOf_from c s i last = i + Js.length pre /\
     ~ In c (chars post)).
Proof.
  unfold Js.length. revert i last. induction s as [|d s IH]; intros i last Hl.
  - left. split; [reflexivity | intros []].
  - cbn [Js.lastIndexOf_from]. destruct (Ascii.eqb_spec d c) as [->|Hdc].
    + right. destruct (IH (i + 1) i ltac:(lia)) as [[E Hn]|(pre & post & -> & E & Hn)].
      * exists "", s. rewrite E. split; [reflexivity|]. split; [simpl; lia | exact Hn].
      * exists (String c pre), post. rewrite E.
        split; [reflexivity|]. split; [simpl; lia | exact Hn].
    + destruct (IH (i + 1) last ltac:(lia)) as [[E Hn]|(pre & post & -> & E & Hn)].
      * left. split; [exact E|]. simpl. intros [H|H]; [contradiction Hdc | contradiction].
      * right. exists (String d pre), post. rewrite E.
        split; [reflexivity|]. split; [simpl; lia | exact Hn].
Qed.

Lemma slice_before (pre rest : string) : Js.slice (pre ++ rest) 0 (Js.length pre) = pre.
Proof.
  apply chars_inj. unfold Js.slice, Js.length.
  rewrite chars_substring, length_append.
  replace (0 <? 0) with false by reflexivity.
  replace (Z.of_nat (String.length pre) <? 0) with false by (symmetry; apply Z.ltb_ge; lia).
  replace (Z.to_nat (Z.min 0 _)) with 0%nat by lia.
  replace (Z.to_nat (Z.max _ 0)) with (List.length (chars pre))
    by (rewrite chars_length; lia).
  cbn [skipn]. rewrite chars_append, firstn_app, firstn_all, Nat.sub_diag.
  cbn [firstn]. apply app_nil_r.
Qed.

Lemma slice_from_after (pre post : string) (c : ascii) :
  Js.slice_from (pre ++ String c post) (Js.length pre + 1) = post.
Proof.
  apply chars_inj. unfold Js.slice_from, Js.slice, Js.length.
  rewrite chars_substring, length_append. cbn [String.length].
  replace (Z.of_nat (String.length pre) + 1 <? 0) with false
    by (symmetry; apply Z.ltb_ge; lia).
  replace (Z.of_nat (String.length pre + S (String.length post)) <? 0) with false
    by (symmetry; apply Z.ltb_ge; lia).
  replace (Z.to_nat (Z.min (Z.of_nat (String.length pre) + 1) _))
    with (List.length (chars pre ++ [c])) by (rewrite length_app, chars_length; simpl; lia).
  replace (Z.to_nat (Z.max _ 0)) with (List.length (chars post))
    by (rewrite chars_length; lia).
  rewrite chars_append. cbn [list_ascii_of_string].
  replace (chars pre ++ c :: chars post)%list with ((chars pre ++ [c]) ++ chars post)%list
    by (rewrite <- app_assoc; reflexivity).
  rewrite skipn_app, skipn_all, Nat.sub_diag. cbn [skipn app]. apply firstn_all.
Qed.

(** The parts of a candidate that decodes. *)
Lemma decode_parts (enc : Bech32.encoding) (str : string) (LIMIT : option Z)
  (d : Bech32.Decoded) :
  Bech32.decode enc str LIMIT = Returns d ->
  exists wordChars,
    Js.toLowerCase str = Bech32.prefix d ++ String "1" wordChars /\
    Bech32.prefix d <> "" /\
    Forall (fun c => 33 <= Js.charCode c <= 126) (chars (Bech32.prefix d)) /\
    ~ In "1"%char (chars wordChars) /\
    (6 <= String.length wordChars)%nat /\
    map Some (Bech32.words d)
    = map Bech32.ALPHABET_MAP (firstn (String.length wordChars - 6) (chars wordChars)).
Proof.
  unfold Bech32.decode, Bech32.decode_.
  destruct (Js.length str <? 8); [discriminate|].
  destruct (Js.length str >? _); [discriminate|].
  destruct (negb _ && negb _); [discriminate|].
  unfold Js.lastIndexOf.
  destruct (lastIndexOf_from_split "1" (Js.toLowerCase str) 0 (-1) ltac:(lia))
    as [[E _]|(pre & post & Es & E & Hn)]; rewrite E.
  - discriminate.
  - cbn [Z.add]. assert (Hp : 0 <= Js.length pre) by (unfold Js.length; lia).
    replace (Js.length pre =? -1) with false by (symmetry; apply Z.eqb_neq; lia).
    destruct (Z.eqb_spec (Js.length pre) 0) as [H0|H0]; [discriminate|].
    rewrite Es, slice_before, slice_from_after.
    destruct (Js.length post <? 6) eqn:H6; [discriminate|].
    apply Z.ltb_ge in H6. unfold Js.length in H6.
    unfold Bech32.prefixChk.
    destruct (Bech32.prefixChk_high (chars pre) 1) as [chk0|] eqn:Hpc; [|discriminate].
    apply prefixChk_high_range in Hpc.
    destruct (Bech32.decode_words (chars post) _ []) as [msg|[chk' ws]] eqn:Hw;
      [discriminate|].
    destruct (negb _); [discriminate|].
    intros H. injection H as <-. cbn [Bech32.prefix Bech32.words].
    exists post. split; [reflexivity|].
    split; [intros ->; apply H0; reflexivity|]. split; [exact Hpc|]. split; [exact Hn|].
    apply decode_words_values in Hw. rewrite chars_length in Hw.
    split; [lia | exact Hw].
Qed.

Lemma decode_words_count (enc : Bech32.encoding) (str : string) (LIMIT : option Z)
  (d : Bech32.Decoded) :
  Bech32.decode enc str LIMIT = Returns d ->
  Js.length (Js.toLowerCase str)
  = Js.length (Bech32.prefix d) + 7 + Z.of_nat (List.length (Bech32.words d)) /\
  Forall is_word (Bech32.words d).
Proof.
  intros H. apply decode_parts in H as (wc & Es & _ & _ & _ & H6 & Hw). split.
  - rewrite Es. unfold Js.length. rewrite length_append.
    cbn [String.length].
    apply (f_equal (@List.length (option Z))) in Hw.
    rewrite !length_map, length_firstn, chars_length in Hw. lia.
  - apply Forall_forall. intros w Hin.
    apply (in_map Some) in Hin. rewrite Hw in Hin.
    apply in_map_iff in Hin as (c & Hc & _). apply ALPHABET_MAP_word in Hc. exact Hc.
Qed.

(** [decode] returns on 8 characters or more, and no more than the ceiling. *)
Lemma decode_length_bounds (enc : Bech32.encoding) (str : string) (LIMIT : option Z)
  (d : Bech32.Decoded) :
  Bech32.decode enc str LIMIT = Returns d -> 8 <= Js.length str <= ceiling LIMIT.
Proof.
  intros H. split; [|exact (decode_within_ceiling _ _ _ _ H)].
  unfold Bech32.decode, Bech32.decode_ in H.
  destruct (Js.length str <? 8) eqn:H8; [discriminate|]. apply Z.ltb_ge in H8. exact H8.
Qed.

(** X17: the parts of a candidate that decodes.  The candidate has 8
    characters or more, and no more than the ceiling.  Its lower-case form,
    which [decode] reads, is the decoded prefix, a [1] and then characters
    without a [1]; the prefix is not empty and its characters are printable
    ASCII; the words are the values of the characters after the [1], less the
    last six, each in 0..31; and the lower-case form has as many characters as
    the prefix, plus 7, plus one a word. *)
Theorem decode_shape (enc : Bech32.encoding) (str : string) (LIMIT : option Z)
  (d : Bech32.Decoded) :
  Bech32.decode enc str LIMIT = Returns d ->
  8 <= Js.length str <= ceiling LIMIT /\
  (exists wordChars,
     Js.toLowerCase str = Bech32.prefix d ++ String "1" wordChars /\
     Bech32.prefix d <> "" /\
     Forall (fun c => 33 <= Js.charCode c <= 126) (chars (Bech32.prefix d)) /\
     ~ In "1"%char (chars wordChars) /\
     (6 <= String.length wordChars)%nat /\
     map Some (Bech32.words d)
     = map Bech32.ALPHABET_MAP (firstn (String.length wordChars - 6) (chars wordChars))) /\
  Js.length (Js.toLowerCase str)
  = Js.length (Bech32.prefix d) + 7 + Z.of_nat (List.length (Bech32.words d)) /\
  Forall is_word (Bech32.words d).
Proof.
  intros H. split; [exact (decode_length_bounds _ _ _ _ H)|].
  split; [exact (decode_parts _ _ _ _ H) | exact (decode_words_count _ _ _ _ H)].
Qed.

(** The segwit address of the examples: 42 characters, the prefix [bc] and 33
    words, the values of the 33 characters that follow [bc1]. *)
Lemma decode_shape_witness :
  Bech32.decode Bech32.bech32 Examples.segwit_address None
  = Returns Examples.segwit_decoded /\
  List.length (Bech32.words Examples.segwit_decoded) = 33%nat /\
  8 <= Js.length Examples.segwit_address <= ceiling None /\
  (exists wordChars,
     Js.toLowerCase Examples.segwit_address
     = Bech32.prefix Examples.segwit_decoded ++ String "1" wordChars /\
     Bech32.prefix Examples.segwit_decoded <> "" /\
     Forall (fun c => 33 <= Js.charCode c <= 126)
       (chars (Bech32.prefix Examples.segwit_decoded)) /\
     ~ In "1"%char (chars wordChars) /\
     (6 <= String.length wordChars)%nat /\
     map Some (Bech32.words Examples.segwit_decoded)
     = map Bech32.ALPHABET_MAP (firstn (String.length wordChars - 6) (chars wordChars))) /\
  Js.length (Js.toLowerCase Examples.segwit_address)
  = Js.length (Bech32.prefix Examples.segwit_decoded) + 7
    + Z.of_nat (List.length (Bech32.words Examples.segwit_decoded)) /\
  Forall is_word (Bech32.words Examples.segwit_decoded).
Proof.
  assert (H : Bech32.decode Bech32.bech32 Examples.segwit_address None
              = Returns Examples.segwit_decoded) by (vm_compute; reflexivity).
  split; [exact H|]. split; [reflexivity|].
  exact (decode_shape Bech32.bech32 Examples.segwit_address None
           Examples.segwit_decoded H).
Defined.

(** ** The lengths of the accepted candidates *)

Lemma skipn_1_length {A : Type} (l : list A) (x : A) :
  nth_error l 0 = Some x -> List.length l = S (List.length (skipn 1 l)).
Proof. destruct l; [discriminate | reflexivity]. Qed.

(** X18: the lengths of the accepted candidates, read on the lower-case form
    that [decode] reads.  In standard mode [bech32Validator] accepts only
    candidates whose lower-case form has 40 or 60 characters more than the
    configured prefix; [bech32mValidator] only 12 to 72 more;
    [zecBech32Validator] only 76 more, of candidates of at most 90 characters,
    and so, where the lower-case form has as many characters as the candidate,
    only under a prefix of at most 14 characters. *)
Theorem accepted_lengths (network address : string) (opts : Bech32Opts.t)
  (limit : option Z) :
  (truthy limit = false ->
   bech32Validator network address opts limit = Returns true ->
   exists prefix,
     configured_prefix opts network prefix /\
     (Js.length (Js.toLowerCase address) = Js.length prefix + 40 \/
      Js.length (Js.toLowerCase address) = Js.length prefix + 60))
  /\
  (bech32mValidator network address opts = Returns true ->
   exists prefix,
     configured_prefix opts network prefix /\
     Js.length prefix + 12 <= Js.length (Js.toLowerCase address) <= Js.length prefix + 72)
  /\
  (zecBech32Validator network address opts = Returns true ->
   exists prefix,
     configured_prefix opts network prefix /\
     Js.length (Js.toLowerCase address) = Js.length prefix + 76 /\
     Js.length address <= 90 /\
     (Js.length (Js.toLowerCase address) = Js.length address -> Js.length prefix <= 14)).
Proof.
  split; [|split].
  - intros Hl H. apply (bech32Validator_standard _ _ _ _ Hl) in H
      as (d & data & Hd & Hv & Hdata & Hlen & Hp).
    exists (Bech32.prefix d). split; [exact Hp|].
    apply decode_words_count in Hd as [Hd _]. apply fromWords_count in Hdata.
    apply skipn_1_length in Hv. lia.
  - intros H. apply bech32mValidator_true in H as (d & v & data & Hd & Hv & Hdata & Hlen & Hp).
    exists (Bech32.prefix d). split; [exact Hp|].
    apply decode_words_count in Hd as [Hd _]. apply fromWords_count in Hdata.
    apply skipn_1_length in Hv. lia.
  - intros H. apply zecBech32Validator_true in H as (d & data & Hd & Hdata & H43 & Hp).
    exists (Bech32.prefix d). split; [exact Hp|].
    pose proof (decode_within_ceiling _ _ _ _ Hd) as Hc. cbn [ceiling] in Hc.
    apply decode_words_count in Hd as [Hd _]. apply fromWords_count in Hdata.
    split; [lia|]. split; [exact Hc | lia].
Qed.

(** The segwit address has 42 characters, 40 more than [bc]; the Taproot
    address has 62, 60 more; the Sapling address has 78, 76 more than [zs]. *)
Lemma accepted_lengths_witness :
  (exists prefix,
     configured_prefix Examples.btc_opts "main" prefix /\
     (Js.length (Js.toLowerCase Examples.segwit_address) = Js.length prefix + 40 \/
      Js.length (Js.toLowerCase Examples.segwit_address) = Js.length prefix + 60)) /\
  (exists prefix,
     configured_prefix Examples.btc_opts "main" prefix /\
     Js.length prefix + 12 <= Js.length (Js.toLowerCase Examples.taproot_address)
     <= Js.length prefix + 72) /\
  (exists prefix,
     configured_prefix Examples.zec_opts "main" prefix /\
     Js.length (Js.toLowerCase Examples.sapling_address) = Js.length prefix + 76 /\
     Js.length Examples.sapling_address <= 90 /\
     (Js.length (Js.toLowerCase Examples.sapling_address)
      = Js.length Examples.sapling_address -> Js.length prefix <= 14)).
Proof.
  split; [|split].
  - apply (proj1 (accepted_lengths "main" Examples.segwit_address Examples.btc_opts None));
      [reflexivity | vm_compute; reflexivity].
  - apply (proj1 (proj2 (accepted_lengths "main" Examples.taproot_address
                           Examples.btc_opts None))).
    vm_compute. reflexivity.
  - apply (proj2 (proj2 (accepted_lengths "main" Examples.sapling_address
                           Examples.zec_opts None))).
    vm_compute. reflexivity.
Defined.

(** ** One candidate, two networks *)

Lemma eqb_other (p q r : string) : q <> r -> String.eqb p q = true -> String.eqb p r = false.
Proof.
  intros Hne H. apply String.eqb_eq in H. subst p. apply String.eqb_neq. exact Hne.
Qed.

(** X19: when the prefixes of [main] and [test] differ, a candidate that
    [bech32Validator] in standard mode, [bech32mValidator] or
    [zecBech32Validator] accepts for one of the two networks is rejected for
    the other. *)
Theorem networks_exclusive (address : string) (opts : Bech32Opts.t) (limit : option Z) :
  Bech32Opts.mainNetPrefix opts <> Bech32Opts.testNetPrefix opts ->
  (truthy limit = false ->
   (bech32Validator "main" address opts limit = Returns true ->
    bech32Validator "test" address opts limit = Returns false) /\
   (bech32Validator "test" address opts limit = Returns true ->
    bech32Validator "main" address opts limit = Returns false))
  /\
  (bech32mValidator "main" address opts = Returns true ->
   bech32mValidator "test" address opts = Returns false) /\
  (bech32mValidator "test" address opts = Returns true ->
   bech32mValidator "main" address opts = Returns false)
  /\
  (zecBech32Validator "main" address opts = Returns true ->
   zecBech32Validator "test" address opts = Returns false) /\
  (zecBech32Validator "test" address opts = Returns true ->
   zecBech32Validator "main" address opts = Returns false).
Proof.
  intros Hne.
  assert (Hmt : forall p, String.eqb p (Bech32Opts.mainNetPrefix opts) = true ->
                          String.eqb p (Bech32Opts.testNetPrefix opts) = false)
    by (intros p; apply eqb_other; exact Hne).
  assert (Htm : forall p, String.eqb p (Bech32Opts.testNetPrefix opts) = true ->
                          String.eqb p (Bech32Opts.mainNetPrefix opts) = false)
    by (intros p; apply eqb_other; congruence).
  split; [|split; [|split; [|split]]].
  - intros Hl. unfold bech32Validator. rewrite Hl.
    destruct (Bech32.decode Bech32.bech32 address limit) as [d|e]; [|split; discriminate].
    destruct (strict_neq _ _); [split; discriminate|].
    destruct (Bech32.fromWords _) as [data|e]; [|split; discriminate]. cbn [bind].
    destruct (_ && _); [split; discriminate|].
    unfold network_prefix_matches, prefix_is. cbn [String.eqb Ascii.eqb Bool.eqb andb].
    split.
    + destruct (String.eqb _ (Bech32Opts.mainNetPrefix opts)) eqn:E; [|discriminate].
      rewrite (Hmt _ E). reflexivity.
    + destruct (String.eqb _ (Bech32Opts.testNetPrefix opts)) eqn:E; [|discriminate].
      rewrite (Htm _ E). reflexivity.
  - unfold bech32mValidator.
    destruct (Bech32.decode Bech32.bech32m address None) as [d|e]; [|discriminate].
    destruct (match nth_error _ _ with Some _ => _ | None => _ end); [discriminate|].
    destruct (Bech32.fromWords _) as [data|e]; [|discriminate]. cbn [bind].
    destruct (_ || _); [discriminate|].
    unfold network_prefix_matches, prefix_is. cbn [String.eqb Ascii.eqb Bool.eqb andb].
    destruct (String.eqb _ (Bech32Opts.mainNetPrefix opts)) eqn:E; [|discriminate].
    rewrite (Hmt _ E). reflexivity.
  - unfold bech32mValidator.
    destruct (Bech32.decode Bech32.bech32m address None) as [d|e]; [|discriminate].
    destruct (match nth_error _ _ with Some _ => _ | None => _ end); [discriminate|].
    destruct (Bech32.fromWords _) as [data|e]; [|discriminate]. cbn [bind].
    destruct (_ || _); [discriminate|].
    unfold network_prefix_matches, prefix_is. cbn [String.eqb Ascii.eqb Bool.eqb andb].
    destruct (String.eqb _ (Bech32Opts.testNetPrefix opts)) eqn:E; [|discriminate].
    rewrite (Htm _ E). reflexivity.
  - unfold zecBech32Validator.
    destruct (Bech32.decode Bech32.bech32 address None) as [d|e]; [|discriminate].
    destruct (Bech32.fromWords _) as [data|e]; [|discriminate]. cbn [bind].
    destruct (negb _); [discriminate|]. cbn [String.eqb Ascii.eqb Bool.eqb andb].
    destruct (String.eqb _ (Bech32Opts.mainNetPrefix opts)) eqn:E; [|discriminate].
    rewrite (Hmt _ E). reflexivity.
  - unfold zecBech32Validator.
    destruct (Bech32.decode Bech32.bech32 address None) as [d|e]; [|discriminate].
    destruct (Bech32.fromWords _) as [data|e]; [|discriminate]. cbn [bind].
    destruct (negb _); [discriminate|]. cbn [String.eqb Ascii.eqb Bool.eqb andb].
    destruct (String.eqb _ (Bech32Opts.testNetPrefix opts)) eqn:E; [|discriminate].
    rewrite (Htm _ E). reflexivity.
Qed.

(** The segwit address is accepted for [main] and rejected for [test]. *)
Lemma networks_exclusive_witness :
  Bech32Opts.mainNetPrefix Examples.btc_opts <> Bech32Opts.testNetPrefix Examples.btc_opts /\
  bech32Validator "main" Examples.segwit_address Examples.btc_opts None = Returns true /\
  bech32Validator "test" Examples.segwit_address Examples.btc_opts None = Returns false.
Proof.
  assert (Hne : Bech32Opts.mainNetPrefix Examples.btc_opts
                <> Bech32Opts.testNetPrefix Examples.btc_opts) by discriminate.
  assert (H : bech32Validator "main" Examples.segwit_address Examples.btc_opts None
              = Returns true) by (vm_compute; reflexivity).
  split; [exact Hne|]. split; [exact H|].
  exact (proj1 (proj1 (networks_exclusive Examples.segwit_address Examples.btc_opts None Hne)
                  eq_refl) H).
Defined.

(** ** [isBech32Address] and the exceptions of [bech32Validator] *)

(** X20: [isBech32Address] throws exactly when [bech32Validator] throws on the
    candidate, which it does for every network or for none; so the second
    call, for [test], never throws after the first, for [main], has returned.
    With a limit other than 0 it always returns. *)
Theorem isBech32Address_throws (address : string) (opts : Bech32Opts.t)
  (lengthLimit : option Z) (e : string) :
  (isBech32Address address opts lengthLimit = Throws e <->
   forall network, bech32Validator network address opts lengthLimit = Throws e)
  /\
  (truthy lengthLimit = true ->
   exists b, isBech32Address address opts lengthLimit = Returns b).
Proof.
  unfold isBech32Address. split.
  - destruct (bech32Validator "main" address opts lengthLimit) as [[|]|e'] eqn:Hm;
      cbn [bind].
    + split; [discriminate|]. intros H. specialize (H "main"). congruence.
    + split.
      * intros H. apply (bech32Validator_Throws _ "main") in H. congruence.
      * intros H. apply H.
    + split.
      * intros H network. injection H as <-.
        exact (bech32Validator_Throws _ network _ _ _ _ Hm).
      * intros H. specialize (H "main"). congruence.
  - intros Hl. unfold bech32Validator. rewrite Hl.
    destruct (Bech32.decode Bech32.bech32 address lengthLimit) as [d|e'] eqn:Hd;
      cbn [bind String.eqb Ascii.eqb Bool.eqb andb].
    + destruct (Js.startsWith _ (Bech32Opts.mainNetPrefix opts)); cbn [bind]; [eauto|].
      destruct (Js.startsWith _ (Bech32Opts.testNetPrefix opts)); eauto.
    + eauto.
Qed.
